(** * Verification of the TFS (Git) to GitHub migration script

    Shallow embedding of [final_script_for_clone_and_push_v2.py]: the
    checkpoint ledger, the retry wrapper around external commands, the
    branch-list push and the migration orchestrator, with the properties
    stated about them.

    The script is effectful throughout.  It is embedded in a state and
    exception monad over a [world]: the process state (current working
    directory, root logger), the file system (directories, the checkpoint
    file), the recorded trace of effects, and the behaviour of the
    environment (HTTP servers, external commands, the clock). *)

From Stdlib Require Import ZArith String Ascii List.
From stdpp Require Import base strings gmap list pretty.

Open Scope Z_scope.

(** ** Python values *)

(** [str] values are byte strings (UTF-8), so [encode("utf-8")] and
    [decode("utf-8")] are the identity. *)

(** The checkpoint document: [{collection: {project: [repo, ...]}}].
    A Python dict with string keys is a finite map; the innermost value is
    a list, which is what the script builds with [append]. *)
Abbreviation ledger := (gmap string (gmap string (list string))).

(** The value of the optional key [specific_branches]: the string
    ["all"] or a list of branch names. *)
Inductive branch_value :=
| BStr (s : string)
| BList (l : list string).

(** [config.json] after [json.load]; the eight keys read with
    [config[...]] and the one read with [config.get]. *)
Record Config := {
  azure_devops_organization : string;
  azure_devops_project : string;
  azure_devops_pat_token : string;
  tfs_source_repo : string;
  github_target_repo : string;
  tfs_url : string;
  github_token : string;
  github_organization : string;
  specific_branches : option branch_value
}.

(** [config.get("specific_branches", "all")] *)
Definition config_get_specific_branches (config : Config) : branch_value :=
  match specific_branches config with
  | Some v => v
  | None => BStr "all"
  end.

(** [specific_branches == "all"] *)
Definition is_all (v : branch_value) : bool :=
  match v with
  | BStr s => bool_decide (s = "all"%string)
  | BList _ => false
  end.

(** [for branch in branches]: a list yields its items, a string its
    characters. *)
Fixpoint chars (s : string) : list string :=
  match s with
  | EmptyString => []
  | String c s' => String c EmptyString :: chars s'
  end.

Definition py_iter (v : branch_value) : list string :=
  match v with
  | BStr s => chars s
  | BList l => l
  end.

(** *** String formatting *)

Definition hex_digit (n : N) : ascii :=
  match String.get (N.to_nat n) "0123456789ABCDEF" with
  | Some c => c
  | None => "0"%char
  end.

Definition hex_lower_digit (n : N) : ascii :=
  match String.get (N.to_nat n) "0123456789abcdef" with
  | Some c => c
  | None => "0"%char
  end.

Definition contains_char (c : ascii) (s : string) : bool :=
  bool_decide (c ∈ list_ascii_of_string s).

Definition dquote : ascii := ascii_of_N 34.
Definition backslash : ascii := ascii_of_N 92.

(** [repr] of a [str]: double quotes when the text has a single quote and
    no double quote, single quotes otherwise; backslash, the quote and
    control characters escaped.  Bytes above 127 are kept. *)
Definition repr_char (q : ascii) (c : ascii) : string :=
  let n := N_of_ascii c in
  let esc (x : ascii) := String backslash (String x EmptyString) in
  if bool_decide (c = backslash) then esc backslash
  else if bool_decide (c = q) then esc q
  else if bool_decide (n = 10%N) then esc "n"%char
  else if bool_decide (n = 13%N) then esc "r"%char
  else if bool_decide (n = 9%N) then esc "t"%char
  else if bool_decide (n < 32 ∨ n = 127)%N then
    String backslash (String "x"%char
      (String (hex_lower_digit (n / 16)) (String (hex_lower_digit (n mod 16)) EmptyString)))
  else String c EmptyString.

Fixpoint repr_body (q : ascii) (s : string) : string :=
  match s with
  | EmptyString => EmptyString
  | String c s' => repr_char q c +:+ repr_body q s'
  end.

Definition repr_str (s : string) : string :=
  let q : ascii :=
    if contains_char "'"%char s && negb (contains_char dquote s)
    then dquote else "'"%char in
  String q (repr_body q s +:+ String q EmptyString).

Fixpoint join_comma (l : list string) : string :=
  match l with
  | [] => EmptyString
  | [x] => x
  | x :: l' => x +:+ ", " +:+ join_comma l'
  end.

(** [repr] of a list of [str], as an f-string prints an argument vector. *)
Definition repr_list (l : list string) : string :=
  "[" +:+ join_comma (map repr_str l) +:+ "]".

(** [str] of the branch selector inside an f-string. *)
Definition str_branch_value (v : branch_value) : string :=
  match v with
  | BStr s => s
  | BList l => repr_list l
  end.

(** *** [base64.b64encode] *)

Definition b64_char (n : N) : ascii :=
  match String.get (N.to_nat n)
    "ABCDEFGHIJKLMNOPQRSTUVWXYZabcdefghijklmnopqrstuvwxyz0123456789+/" with
  | Some c => c
  | None => "="%char
  end.

Fixpoint b64_bytes (l : list N) : string :=
  match l with
  | [] => EmptyString
  | [a] =>
      String (b64_char (a / 4))
        (String (b64_char ((a mod 4) * 16)) "==")
  | [a; b] =>
      String (b64_char (a / 4))
        (String (b64_char ((a mod 4) * 16 + b / 16))
          (String (b64_char ((b mod 16) * 4)) "="))
  | a :: b :: c :: rest =>
      String (b64_char (a / 4))
        (String (b64_char ((a mod 4) * 16 + b / 16))
          (String (b64_char ((b mod 16) * 4 + c / 64))
            (String (b64_char (c mod 64)) (b64_bytes rest))))
  end.

Definition b64encode (s : string) : string :=
  b64_bytes (map N_of_ascii (list_ascii_of_string s)).

(** *** [urllib.parse.quote] with its default [safe="/"] *)

Definition is_unreserved (c : ascii) : bool :=
  let n := N_of_ascii c in
  bool_decide (65 ≤ n ≤ 90)%N || bool_decide (97 ≤ n ≤ 122)%N
  || bool_decide (48 ≤ n ≤ 57)%N
  || contains_char c "_.-~/".

Fixpoint quote (s : string) : string :=
  match s with
  | EmptyString => EmptyString
  | String c s' =>
      if is_unreserved c then String c (quote s')
      else
        let n := N_of_ascii c in
        String "%"%char
          (String (hex_digit (n / 16)) (String (hex_digit (n mod 16)) (quote s')))
  end.

(** *** [os.path.join] (POSIX) *)

Definition starts_with_sep (s : string) : bool :=
  match s with
  | String c _ => bool_decide (c = "/"%char)
  | EmptyString => false
  end.

Fixpoint ends_with_sep (s : string) : bool :=
  match s with
  | EmptyString => false
  | String c EmptyString => bool_decide (c = "/"%char)
  | String _ s' => ends_with_sep s'
  end.

Definition path_join (a b : string) : string :=
  if starts_with_sep b then b
  else if bool_decide (a = EmptyString) || ends_with_sep a then a +:+ b
  else a +:+ "/" +:+ b.

(** The directories [os.makedirs] creates on the way: every prefix of the
    path that ends before a separator. *)
Fixpoint parents_from (pre s : string) : list string :=
  match s with
  | EmptyString => []
  | String c s' =>
      (if bool_decide (c = "/"%char) then [pre] else [])
        ++ parents_from (pre +:+ String c EmptyString) s'
  end.

Definition parents (p : string) : list string := parents_from EmptyString p.

(** ** The world the script runs in *)

Inductive level := INFO | WARNING | ERROR.

(** Handlers of the root logger. *)
Inductive handler :=
| FileHandler (path : string)
| StreamHandler.

(** [Exception] and the subclasses the script can meet. *)
Inductive exn :=
| CalledProcessError (cmd : list string) (returncode : Z)
| OSError (msg : string)
| RequestException (msg : string)
| Exception (msg : string).

(** [str(e)] *)
Definition str_exn (e : exn) : string :=
  match e with
  | CalledProcessError cmd rc =>
      "Command '" +:+ repr_list cmd +:+ "' returned non-zero exit status "
        +:+ pretty rc +:+ "."
  | OSError msg => msg
  | RequestException msg => msg
  | Exception msg => msg
  end.

(** One entry of the GET response's ["value"] list. *)
Record repository := { name : string }.

Record response := {
  status_code : Z;
  text : string;
  (** [response.json().get("value")]; [None] when the key is missing *)
  json_value : option (list repository)
}.

Inductive http_result :=
| Responded (r : response)
| ConnectionFailed (msg : string).

Inductive proc_status :=
| Exited (returncode : Z)
| SpawnFailed (msg : string).

(** What running an external command does: how it ends, and the
    directories it leaves behind. *)
Record run_result := {
  status : proc_status;
  creates : list string
}.

(** Effects, in the order they happen. *)
Inductive event :=
| EvMakedirs (path : string)
| EvOpenLog (path : string)
| EvLog (lvl : level) (msg : string)
| EvGet (url : string) (headers : string * string)
| EvPrint (status : Z)
| EvRun (cmd : list string)
| EvSleep (secs : Z)
| EvChdir (path : string)
| EvWrite (indent : option Z) (doc : ledger).

Record world := {
  (** process state *)
  cwd : string;
  root_level : level;
  root_handlers : list handler;
  (** file system: the directories, and the document held by
      [CHECKPOINT_FILE] ([None]: no such file).  [CHECKPOINT_FILE] is
      computed once, at import, from the working directory of that moment,
      so it names the same file whatever [os.chdir] does later. *)
  dirs : gset string;
  checkpoint_file : option ledger;
  (** effects so far *)
  trace : list event;
  (** environment: answers may depend on everything that happened before *)
  http_get : list event → string → string * string → http_result;
  subprocess_run : list event → list string → run_result;
  now : string
}.

Definition set_cwd (p : string) (w : world) : world :=
  {| cwd := p; root_level := root_level w; root_handlers := root_handlers w;
     dirs := dirs w; checkpoint_file := checkpoint_file w; trace := trace w;
     http_get := http_get w; subprocess_run := subprocess_run w; now := now w |}.

Definition set_root (l : level) (hs : list handler) (w : world) : world :=
  {| cwd := cwd w; root_level := l; root_handlers := hs;
     dirs := dirs w; checkpoint_file := checkpoint_file w; trace := trace w;
     http_get := http_get w; subprocess_run := subprocess_run w; now := now w |}.

Definition set_dirs (d : gset string) (w : world) : world :=
  {| cwd := cwd w; root_level := root_level w; root_handlers := root_handlers w;
     dirs := d; checkpoint_file := checkpoint_file w; trace := trace w;
     http_get := http_get w; subprocess_run := subprocess_run w; now := now w |}.

Definition set_checkpoint_file (f : option ledger) (w : world) : world :=
  {| cwd := cwd w; root_level := root_level w; root_handlers := root_handlers w;
     dirs := dirs w; checkpoint_file := f; trace := trace w;
     http_get := http_get w; subprocess_run := subprocess_run w; now := now w |}.

Definition emit (e : event) (w : world) : world :=
  {| cwd := cwd w; root_level := root_level w; root_handlers := root_handlers w;
     dirs := dirs w; checkpoint_file := checkpoint_file w; trace := trace w ++ [e];
     http_get := http_get w; subprocess_run := subprocess_run w; now := now w |}.

(** ** The monad: state and exceptions *)

Inductive outcome (A : Type) :=
| Val (a : A)
| Exc (e : exn).
Arguments Val {A} a.
Arguments Exc {A} e.

Definition M (A : Type) : Type := world → outcome A * world.

Definition ret {A} (a : A) : M A := λ w, (Val a, w).

Definition raise {A} (e : exn) : M A := λ w, (Exc e, w).

Definition bind {A B} (m : M A) (k : A → M B) : M B :=
  λ w, match m w with
       | (Val a, w') => k a w'
       | (Exc e, w') => (Exc e, w')
       end.

Notation "'let*' x := m 'in' k" := (bind m (λ x, k))
  (at level 10, x name, m at level 100, k at level 200).
Notation "m ;; k" := (bind m (λ _, k))
  (at level 100, k at level 200, right associativity).

(** [try: body except Exception as e: handler e] *)
Definition try_except {A} (body : M A) (handler : exn → M A) : M A :=
  λ w, match body w with
       | (Val a, w') => (Val a, w')
       | (Exc e, w') => handler e w'
       end.

(** [try: body finally: fin]: [fin] runs on both exits; an exception of
    [fin] replaces the outcome of [body]. *)
Definition try_finally {A} (body : M A) (fin : M unit) : M A :=
  λ w, match body w with
       | (r, w') =>
           match fin w' with
           | (Val _, w'') => (r, w'')
           | (Exc e, w'') => (Exc e, w'')
           end
       end.

(** *** Primitive effects *)

Definition act (e : event) : M unit := λ w, (Val tt, emit e w).

(** [logging.info], [logging.warning], [logging.error]: the call is
    recorded; what the handlers do with it is the logging library's. *)
Definition logging (lvl : level) (msg : string) : M unit := act (EvLog lvl msg).

Definition getcwd : M string := λ w, (Val (cwd w), w).

(** [os.path.exists] of a directory path *)
Definition path_exists (p : string) : M bool :=
  λ w, (Val (bool_decide (p ∈ dirs w)), w).

(** [os.makedirs(p, exist_ok=True)], for a path that is not empty, as the
    paths of the script are; of the empty path [os.makedirs] raises. *)
Definition makedirs (p : string) : M unit :=
  λ w, (Val tt, set_dirs (dirs w ∪ {[p]} ∪ list_to_set (parents p)) (emit (EvMakedirs p) w)).

(** [os.chdir] *)
Definition chdir (p : string) : M unit :=
  λ w, if bool_decide (p ∈ dirs w)
       then (Val tt, set_cwd p (emit (EvChdir p) w))
       else (Exc (OSError ("[Errno 2] No such file or directory: " +:+ repr_str p)), w).

Definition sleep (secs : Z) : M unit := act (EvSleep secs).

(** [requests.get(url, headers=headers)] *)
Definition requests_get (url : string) (headers : string * string) : M response :=
  λ w, match http_get w (trace w) url headers with
       | Responded r => (Val r, emit (EvGet url headers) w)
       | ConnectionFailed msg => (Exc (RequestException msg), emit (EvGet url headers) w)
       end.

(** [subprocess.run(command, check=True)] *)
Definition subprocess_run_check (command : list string) : M unit :=
  λ w, let r := subprocess_run w (trace w) command in
       let w' := set_dirs (dirs w ∪ list_to_set (creates r)) (emit (EvRun command) w) in
       match status r with
       | Exited rc =>
           if bool_decide (rc = 0) then (Val tt, w')
           else (Exc (CalledProcessError command rc), w')
       | SpawnFailed msg => (Exc (OSError msg), w')
       end.

(** [os.path.exists(CHECKPOINT_FILE)] *)
Definition checkpoint_exists : M bool :=
  λ w, (Val (bool_decide (is_Some (checkpoint_file w))), w).

(** [with open(CHECKPOINT_FILE, "r") as file: json.load(file)].  A file
    that is there holds a ledger document, as after every [json.dump] of
    the script; on an empty file or one that is not JSON [json.load]
    raises, and the world has no such file. *)
Definition json_load_checkpoint : M ledger :=
  λ w, match checkpoint_file w with
       | Some doc => (Val doc, w)
       | None => (Exc (OSError "[Errno 2] No such file or directory: 'tfs_git_checkpoint.json'"), w)
       end.

(** [with open(CHECKPOINT_FILE, "w") as file: json.dump(doc, file, indent=...)] *)
Definition json_dump_checkpoint (doc : ledger) (indent : option Z) : M unit :=
  λ w, (Val tt, set_checkpoint_file (Some doc) (emit (EvWrite indent doc) w)).

(** ** The script *)

(** [setup_logging(log_dir)].  The [FileHandler] is built, and its file
    opened, before [basicConfig] looks at the root logger; [basicConfig]
    configures the root logger only when it has no handler yet.  The
    directory [log_dir] is taken to be there, as it is after the
    [os.makedirs] of line 120; without it [logging.FileHandler] raises. *)
Definition setup_logging (log_dir : string) : M unit :=
  λ w,
    let log_filename := "script_log_" +:+ now w +:+ ".log" in
    let log_path := path_join log_dir log_filename in
    let w1 := emit (EvOpenLog log_path) w in
    let w2 :=
      match root_handlers w1 with
      | [] => set_root INFO [FileHandler log_path; StreamHandler] w1
      | _ :: _ => w1
      end in
    logging INFO ("Logging initialized: " +:+ log_path) w2.

Definition get_auth_header (pat : string) : string * string :=
  let auth_str := ":" +:+ pat in
  let auth_b64 := b64encode auth_str in
  ("Authorization"%string, "Basic " +:+ auth_b64).

Definition get_github_auth_header (token : string) : string * string :=
  ("Authorization"%string, "token " +:+ token).

(** The test of line 149:
    [c in checkpoint and p in checkpoint[c] and r in checkpoint[c][p]]. *)
Definition ledger_contains (checkpoint : ledger) (c p r : string) : bool :=
  match checkpoint !! c with
  | None => false
  | Some projects =>
      match projects !! p with
      | None => false
      | Some repos => bool_decide (r ∈ repos)
      end
  end.

Definition save_checkpoint (collection_name project_name repo_name : string) : M unit :=
  let* ex := checkpoint_exists in
  let* checkpoint := (if ex : bool then json_load_checkpoint else ret ∅) in
  let checkpoint :=
    match checkpoint !! collection_name with
    | None => <[collection_name := ∅]> checkpoint
    | Some _ => checkpoint
    end in
  let projects : gmap string (list string) := checkpoint !!! collection_name in
  let projects :=
    match projects !! project_name with
    | None => <[project_name := []]> projects
    | Some _ => projects
    end in
  let repos : list string := projects !!! project_name in
  if bool_decide (repo_name ∈ repos) then ret tt
  else
    let checkpoint :=
      <[collection_name := <[project_name := repos ++ [repo_name]]> projects]> checkpoint in
    json_dump_checkpoint checkpoint (Some 4) ;;
    logging INFO ("Checkpoint updated: " +:+ repo_name +:+ " saved under "
                  +:+ collection_name +:+ "/" +:+ project_name +:+ ".").

Definition load_checkpoint : M ledger :=
  let* ex := checkpoint_exists in
  (if negb ex then json_dump_checkpoint ∅ None else ret tt) ;;
  json_load_checkpoint.

(** [for attempt in range(retries)], from [attempt] on with [remaining]
    rounds left, then the [raise] after the loop. *)
Fixpoint retry_loop (command : list string) (retries : Z)
    (attempt : Z) (remaining : nat) : M unit :=
  match remaining with
  | O =>
      raise (Exception ("Command failed after " +:+ pretty retries
                        +:+ " retries: " +:+ repr_list command))
  | S remaining' =>
      λ w, match subprocess_run_check command w with
           | (Val _, w') => (Val tt, w')
           | (Exc (CalledProcessError _ _), w') =>
               (logging WARNING ("Command failed: " +:+ repr_list command
                                 +:+ ", retry " +:+ pretty (attempt + 1)
                                 +:+ "/" +:+ pretty retries) ;;
                sleep (2 ^ attempt) ;;
                retry_loop command retries (attempt + 1) remaining') w'
           | (Exc e, w') => (Exc e, w')
           end
  end.

Definition retry_subprocess (command : list string) (retries : Z) : M unit :=
  retry_loop command retries 0 (Z.to_nat retries).

(** The default of the [retries] argument. *)
Definition default_retries : Z := 3.

Definition fetch_command (branch : string) : list string :=
  ["git"; "fetch"; "origin"; branch]%string.

Definition push_command (github_repo_url branch : string) : list string :=
  ["git"; "push"; github_repo_url;
   "refs/remotes/origin/" +:+ branch +:+ ":refs/heads/" +:+ branch]%string.

Fixpoint migrate_branches (github_repo_url : string) (branches : list string) : M unit :=
  match branches with
  | [] => ret tt
  | branch :: rest =>
      logging INFO ("Pushing specific branch: " +:+ branch) ;;
      retry_subprocess (fetch_command branch) default_retries ;;
      retry_subprocess (push_command github_repo_url branch) default_retries ;;
      migrate_branches github_repo_url rest
  end.

Definition migrate_specific_branches (repo_dir github_repo_url : string)
    (branches : branch_value) : M unit :=
  migrate_branches github_repo_url (py_iter branches).

Definition create_directory_structure (base_dir org project : string) : M string :=
  let org_dir := path_join base_dir org in
  let project_dir := path_join org_dir project in
  makedirs project_dir ;;
  ret project_dir.

Definition check_github_repo_exists (github_org repo_name github_token : string) : M bool :=
  let url := "https://api.github.com/repos/" +:+ github_org +:+ "/" +:+ repo_name in
  let headers := get_github_auth_header github_token in
  let* response := requests_get url headers in
  act (EvPrint (status_code response)) ;;
  ret (bool_decide (status_code response = 200)).

Definition mirror_clone_command (azure_repo_url repo_dir : string) : list string :=
  ["git"; "clone"; "--mirror"; azure_repo_url; repo_dir]%string.

Definition clone_command (azure_repo_url repo_dir : string) : list string :=
  ["git"; "clone"; azure_repo_url; repo_dir]%string.

Definition mirror_push_command (github_repo_url : string) : list string :=
  ["git"; "push"; "--mirror"; github_repo_url]%string.

(** Lines 162-168: the clone. *)
Definition clone_step (specific_branches : branch_value)
    (repo_name azure_repo_url repo_dir : string) : M unit :=
  let* ex := path_exists repo_dir in
  if negb ex then
    if is_all specific_branches then
      logging INFO ("Cloning all branches for " +:+ repo_name +:+ "...") ;;
      retry_subprocess (mirror_clone_command azure_repo_url repo_dir) default_retries
    else
      logging INFO ("Cloning default branch for " +:+ repo_name +:+ "...") ;;
      retry_subprocess (clone_command azure_repo_url repo_dir) default_retries
  else ret tt.

(** Lines 170-179: the push. *)
Definition push_step (config : Config) (specific_branches : branch_value)
    (repo_name git_repo repo_dir : string) : M unit :=
  chdir repo_dir ;;
  let github_repo_url :=
    "https://github.com/" +:+ github_organization config +:+ "/"
      +:+ quote git_repo +:+ ".git" in
  if is_all specific_branches then
    logging INFO ("Pushing all branches and tags for " +:+ repo_name +:+ "...") ;;
    retry_subprocess (mirror_push_command github_repo_url) default_retries
  else
    logging INFO ("Pushing selected branches: " +:+ str_branch_value specific_branches
                  +:+ " for " +:+ repo_name) ;;
    migrate_specific_branches repo_dir github_repo_url specific_branches.

(** Lines 162-179: the suite of the [try]. *)
Definition try_suite (config : Config) (only_clone_repos : bool)
    (specific_branches : branch_value)
    (repo_name git_repo azure_repo_url repo_dir : string) : M unit :=
  clone_step specific_branches repo_name azure_repo_url repo_dir ;;
  if negb only_clone_repos
  then push_step config specific_branches repo_name git_repo repo_dir
  else ret tt.

(** Lines 161-187: [try] / [except Exception] / [finally]. *)
Definition clone_push_block (config : Config) (only_clone_repos : bool)
    (specific_branches : branch_value)
    (collection_name azure_project repo_name git_repo : string)
    (azure_repo_url repo_dir base_dir : string) : M unit :=
  try_finally
    (try_except
       (try_suite config only_clone_repos specific_branches
          repo_name git_repo azure_repo_url repo_dir)
       (λ e, logging ERROR ("An error occurred while processing " +:+ repo_name
                            +:+ ": " +:+ str_exn e)))
    (save_checkpoint collection_name azure_project repo_name ;;
     chdir base_dir).

Definition clone_and_push_repositories (config : Config) (only_clone_repos : bool) : M unit :=
  let azure_org := azure_devops_organization config in
  let azure_project := azure_devops_project config in
  let azure_pat := azure_devops_pat_token config in
  let tfs_repo := tfs_source_repo config in
  let git_repo := github_target_repo config in
  let tfs_domain := tfs_url config in
  let collection_name := azure_devops_organization config in
  let github_token := github_token config in
  let specific_branches := config_get_specific_branches config in
  let* cwd0 := getcwd in
  let base_dir := path_join cwd0 "tfs_repo_migration" in
  let repo_base_dir := path_join base_dir "tfs_git_repo" in
  let log_dir := path_join base_dir "tfs_git_migration_log" in
  makedirs repo_base_dir ;;
  makedirs log_dir ;;
  setup_logging log_dir ;;
  let* project_dir := create_directory_structure repo_base_dir azure_org azure_project in
  let url := tfs_domain +:+ "/" +:+ azure_org +:+ "/" +:+ azure_project
               +:+ "/_apis/git/repositories?api-version=5.0" in
  let headers := get_auth_header azure_pat in
  let* response := requests_get url headers in
  if negb (bool_decide (status_code response = 200)) then
    raise (Exception ("Failed to fetch repositories: " +:+ text response))
  else
    let repositories := default [] (json_value response) in
    let repo_names := map name repositories in
    if negb (bool_decide (tfs_repo ∈ repo_names)) then
      raise (Exception ("Repository " +:+ tfs_repo
                        +:+ " not found in the given TFS collection."))
    else
      let* checkpoint := load_checkpoint in
      match List.find (λ r, bool_decide (name r = tfs_repo)) repositories with
      | None => ret tt
      | Some repo =>
          let repo_name := name repo in
          if ledger_contains checkpoint collection_name azure_project repo_name then
            logging INFO ("Skipping " +:+ repo_name +:+ ", already migrated.")
          else
            let* ex := check_github_repo_exists (github_organization config) git_repo github_token in
            if negb ex then
              logging ERROR ("Repository " +:+ git_repo
                             +:+ " does not exist on GitHub. Migration cannot proceed.")
            else
              let repo_dir := path_join project_dir repo_name in
              let azure_repo_url :=
                tfs_domain +:+ "/" +:+ azure_org +:+ "/" +:+ azure_project
                  +:+ "/_git/" +:+ quote repo_name in
              clone_push_block config only_clone_repos specific_branches
                collection_name azure_project repo_name git_repo
                azure_repo_url repo_dir base_dir
      end.

(** The [try] of [main] (lines 196-199), with the parsed flag and the
    loaded configuration given: argument parsing and [load_config] (lines
    190-194) stand before it and are not part of this definition. *)
Definition main (config : Config) (only_clone_repos : bool) : M unit :=
  try_except
    (clone_and_push_repositories config only_clone_repos)
    (λ e, logging ERROR ("An error occurred: " +:+ str_exn e)).

(** ** Observing a run *)

(** The events a computation added when it took [w] to [w']. *)
Definition new_events (w w' : world) : list event :=
  drop (length (trace w)) (trace w').

(** The external commands invoked, in order. *)
Definition commands (evs : list event) : list (list string) :=
  flat_map (λ e, match e with EvRun c => [c] | _ => [] end) evs.

(** The delays slept, in order. *)
Definition delays (evs : list event) : list Z :=
  flat_map (λ e, match e with EvSleep z => [z] | _ => [] end) evs.

(** The documents written to the checkpoint file, in order. *)
Definition writes (evs : list event) : list ledger :=
  flat_map (λ e, match e with EvWrite _ doc => [doc] | _ => [] end) evs.

(** The directories [os.chdir] moved to, in order. *)
Definition chdirs (evs : list event) : list string :=
  flat_map (λ e, match e with EvChdir p => [p] | _ => [] end) evs.

(** The URLs requested, in order. *)
Definition gets (evs : list event) : list string :=
  flat_map (λ e, match e with EvGet u _ => [u] | _ => [] end) evs.

Definition is_clone (cmd : list string) : bool :=
  match cmd with
  | g :: c :: _ => bool_decide (g = "git"%string) && bool_decide (c = "clone"%string)
  | _ => false
  end.

Definition is_push (cmd : list string) : bool :=
  match cmd with
  | g :: c :: _ => bool_decide (g = "git"%string) && bool_decide (c = "push"%string)
  | _ => false
  end.

(** The process state is a function of the trace: the working directory
    is where the last [os.chdir] went, the checkpoint file holds the last
    document written, and the root logger is configured by the first
    [setup_logging] that finds it without handlers. *)
Definition last_chdir (evs : list event) (d : string) : string :=
  foldl (λ acc e, match e with EvChdir p => p | _ => acc end) d evs.

Definition last_write (evs : list event) (d : option ledger) : option ledger :=
  foldl (λ acc e, match e with EvWrite _ doc => Some doc | _ => acc end) d evs.

Definition configure_root (acc : level * list handler) (e : event) : level * list handler :=
  match e with
  | EvOpenLog p =>
      match acc.2 with
      | [] => (INFO, [FileHandler p; StreamHandler])
      | _ :: _ => acc
      end
  | _ => acc
  end.

Definition root_after (evs : list event) (d : level * list handler) : level * list handler :=
  foldl configure_root d evs.

Record evolves (w w' : world) (evs : list event) : Prop := {
  ev_trace : trace w' = trace w ++ evs;
  ev_cwd : cwd w' = last_chdir evs (cwd w);
  ev_file : checkpoint_file w' = last_write evs (checkpoint_file w);
  ev_root : (root_level w', root_handlers w') = root_after evs (root_level w, root_handlers w);
  ev_dirs : dirs w ⊆ dirs w';
  ev_http : http_get w' = http_get w;
  ev_subprocess : subprocess_run w' = subprocess_run w;
  ev_now : now w' = now w
}.

(** An event that carries no state change. *)
Definition quiet (e : event) : Prop :=
  match e with
  | EvChdir _ | EvWrite _ _ | EvOpenLog _ => False
  | _ => True
  end.

(** [m] only adds events that satisfy [P], and keeps the state in step
    with them. *)
Definition run_spec {A} (P : event → Prop) (m : M A) : Prop :=
  ∀ w, ∃ evs, evolves w (m w).2 evs ∧ Forall P evs.

(** Events of a phase that runs external commands: log lines, delays and
    the commands [allowed]. *)
Definition only (allowed : list string → bool) (e : event) : Prop :=
  match e with
  | EvLog _ _ | EvSleep _ => True
  | EvRun c => allowed c = true
  | _ => False
  end.

(** ** The retry wrapper, round by round *)

(** What one failed round of [retry_subprocess] leaves in the trace. *)
Definition failed_round (command : list string) (retries : Z) (k : nat) : list event :=
  [EvRun command;
   EvLog WARNING ("Command failed: " +:+ repr_list command +:+ ", retry "
                  +:+ pretty (Z.of_nat k + 1) +:+ "/" +:+ pretty retries);
   EvSleep (2 ^ Z.of_nat k)].

(** Rounds [a], [a+1], ..., [a+n-1]. *)
Definition failed_rounds (command : list string) (retries : Z) (a n : nat) : list event :=
  flat_map (failed_round command retries) (seq a n).

(** The world after one failed round. *)
Definition after_failed_round (command : list string) (retries : Z)
    (a : nat) (w : world) : world :=
  emit (EvSleep (2 ^ Z.of_nat a))
    (emit (EvLog WARNING ("Command failed: " +:+ repr_list command +:+ ", retry "
                          +:+ pretty (Z.of_nat a + 1) +:+ "/" +:+ pretty retries))
       (set_dirs (dirs w ∪ list_to_set (creates (subprocess_run w (trace w) command)))
          (emit (EvRun command) w))).

(** How invocation number [k] (from 0) of [command] ends, when the [k]
    invocations before it failed. *)
Definition status_at (w : world) (command : list string) (retries : Z) (k : nat) : proc_status :=
  status (subprocess_run w (trace w ++ failed_rounds command retries 0 k) command).

Definition exits_nonzero (s : proc_status) : bool :=
  match s with
  | Exited rc => negb (bool_decide (rc = 0))
  | SpawnFailed _ => false
  end.

Definition exits_zero (s : proc_status) : bool :=
  match s with
  | Exited rc => bool_decide (rc = 0)
  | SpawnFailed _ => false
  end.

(** The terminal error of [retry_subprocess]. *)
Definition retries_exhausted (command : list string) (retries : Z) : exn :=
  Exception ("Command failed after " +:+ pretty retries +:+ " retries: " +:+ repr_list command).

(** ** One run of the orchestrator *)

Definition base_dir_of (w : world) : string := path_join (cwd w) "tfs_repo_migration".
Definition repo_base_dir_of (w : world) : string := path_join (base_dir_of w) "tfs_git_repo".
Definition log_dir_of (w : world) : string := path_join (base_dir_of w) "tfs_git_migration_log".
Definition log_path_of (w : world) : string :=
  path_join (log_dir_of w) ("script_log_" +:+ now w +:+ ".log").
Definition project_dir_of (config : Config) (w : world) : string :=
  path_join (path_join (repo_base_dir_of w) (azure_devops_organization config))
            (azure_devops_project config).
Definition repo_dir_of (config : Config) (w : world) : string :=
  path_join (project_dir_of config w) (tfs_source_repo config).

Definition listing_url (config : Config) : string :=
  tfs_url config +:+ "/" +:+ azure_devops_organization config +:+ "/"
    +:+ azure_devops_project config +:+ "/_apis/git/repositories?api-version=5.0".
Definition github_api_url (config : Config) : string :=
  "https://api.github.com/repos/" +:+ github_organization config +:+ "/"
    +:+ github_target_repo config.
Definition azure_repo_url_of (config : Config) : string :=
  tfs_url config +:+ "/" +:+ azure_devops_organization config +:+ "/"
    +:+ azure_devops_project config +:+ "/_git/" +:+ quote (tfs_source_repo config).
Definition github_repo_url_of (config : Config) : string :=
  "https://github.com/" +:+ github_organization config +:+ "/"
    +:+ quote (github_target_repo config) +:+ ".git".

(** Lines 117-127: directories and logging. *)
Definition preamble_events (config : Config) (w : world) : list event :=
  [EvMakedirs (repo_base_dir_of w);
   EvMakedirs (log_dir_of w);
   EvOpenLog (log_path_of w);
   EvLog INFO ("Logging initialized: " +:+ log_path_of w);
   EvMakedirs (project_dir_of config w)].

(** Up to and with the GET of line 131. *)
Definition listing_events (config : Config) (w : world) : list event :=
  preamble_events config w
    ++ [EvGet (listing_url config) (get_auth_header (azure_devops_pat_token config))].

(** The answer the listing request of this run gets. *)
Definition listing_answer (config : Config) (w : world) : http_result :=
  http_get w (trace w ++ preamble_events config w)
    (listing_url config) (get_auth_header (azure_devops_pat_token config)).

(** The listing request is answered with 200 and the source repository is
    in the list. *)
Definition listed (config : Config) (w : world) : bool :=
  match listing_answer config w with
  | Responded r =>
      bool_decide (status_code r = 200)
      && bool_decide (tfs_source_repo config ∈ map name (default [] (json_value r)))
  | ConnectionFailed _ => false
  end.

(** The ledger document records the configured (collection, project, repo). *)
Definition migrated (config : Config) (file : option ledger) : bool :=
  ledger_contains (default ∅ file)
    (azure_devops_organization config) (azure_devops_project config)
    (tfs_source_repo config).

(** What [load_checkpoint] adds to the trace: it creates the file when
    there is none. *)
Definition load_events (w : world) : list event :=
  match checkpoint_file w with
  | None => [EvWrite None ∅]
  | Some _ => []
  end.

(** The events up to the GitHub existence check. *)
Definition precheck_events (config : Config) (w : world) : list event :=
  listing_events config w ++ load_events w.

(** The answer the existence check of this run gets. *)
Definition destination_answer (config : Config) (w : world) : http_result :=
  http_get w (trace w ++ precheck_events config w)
    (github_api_url config) (get_github_auth_header (github_token config)).

Definition destination_status (config : Config) (w : world) : option Z :=
  match destination_answer config w with
  | Responded r => Some (status_code r)
  | ConnectionFailed _ => None
  end.

(** The run gets as far as the existence check. *)
Definition reaches_check (config : Config) (w : world) : bool :=
  listed config w && negb (migrated config (checkpoint_file w)).

(** The run gets as far as the [try] of line 161. *)
Definition reaches_block (config : Config) (w : world) : bool :=
  reaches_check config w && bool_decide (destination_status config w = Some 200).

(** The events before the [try]. *)
Definition entry_events (config : Config) (w : world) : list event :=
  precheck_events config w
    ++ [EvGet (github_api_url config) (get_github_auth_header (github_token config));
        EvPrint 200].

(** The worlds a run goes through: after the directories and the logging
    are set up, after the listing request, after the ledger is loaded,
    after the existence check answered with [status]. *)
Definition setup_world (config : Config) (w : world) : world :=
  ((makedirs (repo_base_dir_of w) ;;
    makedirs (log_dir_of w) ;;
    setup_logging (log_dir_of w) ;;
    makedirs (project_dir_of config w)) w).2.

Definition listed_world (config : Config) (w : world) : world :=
  emit (EvGet (listing_url config) (get_auth_header (azure_devops_pat_token config)))
    (setup_world config w).

Definition loaded_world (config : Config) (w : world) : world :=
  (load_checkpoint (listed_world config w)).2.

Definition requested_world (config : Config) (w : world) : world :=
  emit (EvGet (github_api_url config) (get_github_auth_header (github_token config)))
    (loaded_world config w).

Definition checked_world (config : Config) (status : Z) (w : world) : world :=
  emit (EvPrint status) (requested_world config w).

(** The world in which the [try] starts. *)
Definition entry_world (config : Config) (w : world) : world :=
  checked_world config 200 w.

(** The [try] suite and the whole block, with the arguments the
    orchestrator of a run from [w0] gives them. *)
Definition suite_of (config : Config) (only_clone_repos : bool) (w0 : world) : M unit :=
  try_suite config only_clone_repos (config_get_specific_branches config)
    (tfs_source_repo config) (github_target_repo config)
    (azure_repo_url_of config) (repo_dir_of config w0).

Definition block_of (config : Config) (only_clone_repos : bool) (w0 : world) : M unit :=
  clone_push_block config only_clone_repos (config_get_specific_branches config)
    (azure_devops_organization config) (azure_devops_project config)
    (tfs_source_repo config) (github_target_repo config)
    (azure_repo_url_of config) (repo_dir_of config w0) (base_dir_of w0).

(** The log lines of the early exits and of the handler. *)
Definition skip_line (config : Config) : event :=
  EvLog INFO ("Skipping " +:+ tfs_source_repo config +:+ ", already migrated.").

Definition missing_line (config : Config) : event :=
  EvLog ERROR ("Repository " +:+ github_target_repo config
               +:+ " does not exist on GitHub. Migration cannot proceed.").

Definition error_line (config : Config) (e : exn) : event :=
  EvLog ERROR ("An error occurred while processing " +:+ tfs_source_repo config
               +:+ ": " +:+ str_exn e).

(** The checkpoint entry of a successful [save_checkpoint]. *)
Definition checkpoint_line (config : Config) : event :=
  EvLog INFO ("Checkpoint updated: " +:+ tfs_source_repo config +:+ " saved under "
              +:+ azure_devops_organization config +:+ "/"
              +:+ azure_devops_project config +:+ ".").

(** The document [save_checkpoint c p r] leaves when [r] is not recorded
    yet: [r] appended to the list of [c]/[p]. *)
Definition record (doc : ledger) (c p r : string) : ledger :=
  <[c := <[p := (default [] (default ∅ (doc !! c) !! p)) ++ [r]]> (default ∅ (doc !! c))]> doc.

(** The repo list of a collection and project. *)
Definition repos_of (doc : ledger) (c p : string) : list string :=
  default [] (default ∅ (doc !! c) !! p).

(** The delays that lie between [n] attempts: one after each attempt but
    the last. *)
Definition delays_between (n : nat) : list Z :=
  (λ k, 2 ^ Z.of_nat k) <$> seq 0 (n - 1).

(** ** Sample worlds *)

Definition sample_config : Config :=
  {| azure_devops_organization := "contoso";
     azure_devops_project := "payments";
     azure_devops_pat_token := "secret";
     tfs_source_repo := "billing";
     github_target_repo := "billing-gh";
     tfs_url := "https://tfs.example.com";
     github_token := "ghp_token";
     github_organization := "contoso-gh";
     specific_branches := None |}.

Definition sample_listing : response :=
  {| status_code := 200; text := "";
     json_value := Some [ {| name := "ledger" |}; {| name := "billing" |} ] |}.

(** Both servers answer; GitHub with [github_status]. *)
Definition sample_http (github_status : Z)
    (h : list event) (url : string) (headers : string * string) : http_result :=
  if bool_decide (url = listing_url sample_config) then Responded sample_listing
  else Responded {| status_code := github_status; text := ""; json_value := None |}.

(** Every command exits with [rc]; a clone leaves its target directory. *)
Definition run_exit (rc : Z) (h : list event) (command : list string) : run_result :=
  {| status := Exited rc;
     creates := if bool_decide (rc = 0) && is_clone command
                then match last command with Some d => [d] | None => [] end
                else [] |}.

(** The first [k] invocations exit with 1, the later ones with 0. *)
Definition run_flaky (k : nat) (h : list event) (command : list string) : run_result :=
  run_exit (if bool_decide (length (commands h) < k)%nat then 1 else 0) h command.

(** Pushes are rejected, everything else works. *)
Definition run_push_rejected (h : list event) (command : list string) : run_result :=
  run_exit (if is_push command then 128 else 0) h command.

Definition sample_world (file : option ledger) (github_status : Z)
    (run : list event → list string → run_result) : world :=
  {| cwd := "/work";
     root_level := WARNING;
     root_handlers := [];
     dirs := {[ "/work"%string ]};
     checkpoint_file := file;
     trace := [];
     http_get := sample_http github_status;
     subprocess_run := run;
     now := "2024-01-01_00-00-00" |}.

Definition sample_command : list string := fetch_command "main".

(** ** The branch-list push *)

(** The commands spent on one branch: [i] fetches, then [j] pushes. *)
Definition branch_commands (github_repo_url : string) (x : string * (nat * nat)) : list (list string) :=
  replicate x.2.1 (fetch_command x.1) ++ replicate x.2.2 (push_command github_repo_url x.1).

(** The events of one branch when both commands succeed at once. *)
Definition clean_branch_events (github_repo_url branch : string) : list event :=
  [EvLog INFO ("Pushing specific branch: " +:+ branch);
   EvRun (fetch_command branch);
   EvRun (push_command github_repo_url branch)].

(** The counts of a branch that was started: at least one and at most
    three fetches, at most three pushes. *)
Definition branch_counts_ok (x : nat * nat) : Prop :=
  (1 ≤ x.1 ≤ 3)%nat ∧ (x.2 ≤ 3)%nat.

(** A name that is one path component: not empty, without a separator,
    and neither of the two dot entries.  Joined to a directory, such a name
    is an entry of that directory, and [os.path.exists] of the join is the
    presence of this very path. *)
Definition path_component (name : string) : bool :=
  negb (bool_decide (name = ""%string))
  && negb (contains_char "/"%char name)
  && negb (bool_decide (name = "."%string))
  && negb (bool_decide (name = ".."%string)).

(** The sample configuration with a list of branches as its selector. *)
Definition branch_list_config : Config :=
  {| azure_devops_organization := "contoso";
     azure_devops_project := "payments";
     azure_devops_pat_token := "secret";
     tfs_source_repo := "billing";
     github_target_repo := "billing-gh";
     tfs_url := "https://tfs.example.com";
     github_token := "ghp_token";
     github_organization := "contoso-gh";
     specific_branches := Some (BList ["main"; "feature-x"]%string) |}.

(** The clone command the selector chooses. *)
Definition chosen_clone_command (specific_branches : branch_value)
    (azure_repo_url repo_dir : string) : list string :=
  if is_all specific_branches
  then mirror_clone_command azure_repo_url repo_dir
  else clone_command azure_repo_url repo_dir.

(** The document a run leaves in the checkpoint file when it records its
    repository. *)
Definition recorded (config : Config) (w : world) : ledger :=
  record (default ∅ (checkpoint_file w))
    (azure_devops_organization config) (azure_devops_project config)
    (tfs_source_repo config).

(** What the [finally] adds to the trace of a run that got into the [try]. *)
Definition final_events (config : Config) (w : world) : list event :=
  [EvWrite (Some 4) (recorded config w); checkpoint_line config; EvChdir (base_dir_of w)].

(** What the [except] adds. *)
Definition handler_events (config : Config) (r : outcome unit) : list event :=
  match r with
  | Val _ => []
  | Exc e => [error_line config e]
  end.

(** The events of the push phase: none when [os.chdir] fails, else the
    change of directory followed by log lines, delays and commands that
    are not clones. *)
Definition push_phase (repo_dir : string) (evs : list event) : Prop :=
  evs = [] ∨ ∃ rest, evs = EvChdir repo_dir :: rest
                     ∧ Forall (only (λ c, negb (is_clone c))) rest.

(** ** Further observations *)

(** The sum of a list of delays. *)
Definition total (l : list Z) : Z := foldr Z.add 0 l.

(** The command cannot be started at all (no such binary). *)
Definition run_missing_binary (h : list event) (command : list string) : run_result :=
  {| status := SpawnFailed "[Errno 2] No such file or directory: 'git'"; creates := [] |}.

(** What ends a run of [retry_subprocess] after [k] failed rounds out of
    [n]: the invocation that did not fail with an exit status, or nothing
    when the rounds are used up. *)
Definition last_invocation (command : list string) (n k : nat) : list event :=
  if bool_decide (k < n)%nat then [EvRun command] else [].

(** The exception of a run whose listing step fails. *)
Definition listing_error (config : Config) (w : world) : exn :=
  match listing_answer config w with
  | ConnectionFailed msg => RequestException msg
  | Responded r =>
      if bool_decide (status_code r = 200)
      then Exception ("Repository " +:+ tfs_source_repo config
                      +:+ " not found in the given TFS collection.")
      else Exception ("Failed to fetch repositories: " +:+ text r)
  end.

(** How a run that does not get into the [try] ends. *)
Definition early_outcome (config : Config) (w : world) : outcome unit :=
  if negb (listed config w) then Exc (listing_error config w)
  else if migrated config (checkpoint_file w) then Val tt
  else match destination_answer config w with
       | ConnectionFailed msg => Exc (RequestException msg)
       | Responded _ => Val tt
       end.

(** The trace of a run that does not get into the [try]. *)
Definition early_events (config : Config) (w : world) : list event :=
  if negb (listed config w) then listing_events config w
  else if migrated config (checkpoint_file w)
  then listing_events config w ++ [skip_line config]
  else
    precheck_events config w
      ++ EvGet (github_api_url config) (get_github_auth_header (github_token config))
      :: match destination_answer config w with
         | ConnectionFailed _ => []
         | Responded r => [EvPrint (status_code r); missing_line config]
         end.

(** The events of the clone when the command succeeds at once; none when
    the directory is there. *)
Definition clean_clone_events (specific_branches : branch_value)
    (repo_name azure_repo_url repo_dir : string) (present : bool) : list event :=
  if present then []
  else [EvLog INFO (if is_all specific_branches
                    then "Cloning all branches for " +:+ repo_name +:+ "..."
                    else "Cloning default branch for " +:+ repo_name +:+ "...");
        EvRun (chosen_clone_command specific_branches azure_repo_url repo_dir)].

(** The events of the push when every command succeeds at once. *)
Definition clean_push_events (specific_branches : branch_value)
    (repo_name github_repo_url repo_dir : string) : list event :=
  EvChdir repo_dir
    :: (if is_all specific_branches
        then [EvLog INFO ("Pushing all branches and tags for " +:+ repo_name +:+ "...");
              EvRun (mirror_push_command github_repo_url)]
        else EvLog INFO ("Pushing selected branches: "
                         +:+ str_branch_value specific_branches
                         +:+ " for " +:+ repo_name)
             :: flat_map (clean_branch_events github_repo_url) (py_iter specific_branches)).

(** The commands of the push when every command succeeds at once. *)
Definition clean_push_commands (specific_branches : branch_value)
    (github_repo_url : string) : list (list string) :=
  if is_all specific_branches then [mirror_push_command github_repo_url]
  else flat_map (λ b, [fetch_command b; push_command github_repo_url b])
         (py_iter specific_branches).

(** * Properties *)

(** ** The ledger *)

Section Ledger.
Implicit Types (doc : ledger) (c p r : string) (w : world).

Lemma ledger_contains_spec doc c p r :
  ledger_contains doc c p r = bool_decide (r ∈ repos_of doc c p).
Proof.
  unfold ledger_contains, repos_of.
  destruct (doc !! c) as [projects|]; simpl.
  - by destruct (projects !! p).
  - by rewrite lookup_empty.
Qed.

Lemma repos_of_record doc c p r c' p' :
  repos_of (record doc c p r) c' p'
  = if bool_decide (c' = c ∧ p' = p) then repos_of doc c p ++ [r]
    else repos_of doc c' p'.
Proof.
  unfold record, repos_of.
  case_bool_decide as H.
  - destruct H as [-> ->]. rewrite lookup_insert_eq. simpl. by rewrite lookup_insert_eq.
  - destruct (decide (c' = c)) as [->|Hc].
    + rewrite lookup_insert_eq. simpl.
      rewrite lookup_insert_ne; [done|]. intros ->. by apply H.
    + by rewrite lookup_insert_ne.
Qed.

(** What [save_checkpoint] does, in one equation. *)
Lemma save_checkpoint_eq c p r w :
  save_checkpoint c p r w =
    let doc := default ∅ (checkpoint_file w) in
    if ledger_contains doc c p r then (Val tt, w)
    else
      (Val tt,
       emit (EvLog INFO ("Checkpoint updated: " +:+ r +:+ " saved under "
                         +:+ c +:+ "/" +:+ p +:+ "."))
         (set_checkpoint_file (Some (record doc c p r))
            (emit (EvWrite (Some 4) (record doc c p r)) w))).
Proof.
  unfold save_checkpoint, bind, checkpoint_exists, json_load_checkpoint, ret,
    json_dump_checkpoint, logging, act.
  unfold ledger_contains, record. cbn beta.
  destruct (checkpoint_file w) as [doc|] eqn:Hf; cbn -[lookup_total insert].
  all: rewrite ?Hf; cbn -[lookup_total insert].
  - destruct (doc !! c) as [projects|] eqn:Hc;
      rewrite ?lookup_total_alt, ?lookup_insert_eq, ?Hc; cbn [default from_option id].
    + destruct (projects !! p) as [repos|] eqn:Hp;
        rewrite ?Hp, ?lookup_total_alt, ?lookup_insert_eq, ?Hp; cbn [default from_option id].
      * by case_bool_decide.
      * rewrite bool_decide_eq_false_2 by apply not_elem_of_nil.
        by rewrite insert_insert_eq.
    + rewrite lookup_empty, ?lookup_total_alt, ?lookup_insert_eq. cbn [default from_option id].
      rewrite bool_decide_eq_false_2 by apply not_elem_of_nil.
      by rewrite !insert_insert_eq.
  - rewrite lookup_empty, ?lookup_total_alt, ?lookup_insert_eq. cbn [default from_option id].
    rewrite lookup_empty, ?lookup_total_alt, ?lookup_insert_eq. cbn [default from_option id].
    rewrite bool_decide_eq_false_2 by apply not_elem_of_nil.
    by rewrite !insert_insert_eq.
Qed.

Lemma load_checkpoint_eq w :
  load_checkpoint w =
    match checkpoint_file w with
    | Some doc => (Val doc, w)
    | None => (Val ∅, set_checkpoint_file (Some ∅) (emit (EvWrite None ∅) w))
    end.
Proof.
  unfold load_checkpoint, bind, checkpoint_exists, json_load_checkpoint.
  destruct (checkpoint_file w) eqn:Hf; simpl; by rewrite ?Hf.
Qed.

Lemma ledger_contains_record doc c p r :
  ledger_contains (record doc c p r) c p r = true.
Proof.
  rewrite ledger_contains_spec, repos_of_record.
  rewrite (bool_decide_eq_true_2 (c = c ∧ p = p)) by done.
  apply bool_decide_eq_true. set_solver.
Qed.
End Ledger.

Lemma new_events_app (w w' : world) (evs : list event) :
  trace w' = trace w ++ evs → new_events w w' = evs.
Proof. intros H. unfold new_events. rewrite H. apply drop_app_length. Qed.

Lemma new_events_same (w : world) : new_events w w = [].
Proof. apply new_events_app. by rewrite app_nil_r. Qed.

Lemma migrated_missing_file (c p r : string) : ledger_contains ∅ c p r = false.
Proof. unfold ledger_contains. by rewrite lookup_empty. Qed.

(** C5: [save_checkpoint] is idempotent.  With the triple already in the
    persisted ledger it is a no-op: the world it returns is the one it got,
    so nothing is written.  With the triple absent it writes one document,
    in which the repo name is appended to the list of that collection and
    project (where it was not before) and every other list is as it was.
    Recording the same triple a second time is then such a no-op, and the
    list keeps its length. *)
Theorem save_checkpoint_idempotent (c p r : string) (w : world) :
  let doc := default ∅ (checkpoint_file w) in
  let w1 := (save_checkpoint c p r w).2 in
  let w2 := (save_checkpoint c p r w1).2 in
  (if ledger_contains doc c p r
   then save_checkpoint c p r w = (Val tt, w)
   else (writes (new_events w w1) = [record doc c p r]
         ∧ checkpoint_file w1 = Some (record doc c p r)
         ∧ (r ∉ repos_of doc c p)
         ∧ repos_of (record doc c p r) c p = repos_of doc c p ++ [r]
         ∧ ∀ c' p', ¬ (c' = c ∧ p' = p) →
             repos_of (record doc c p r) c' p' = repos_of doc c' p'))
  ∧ save_checkpoint c p r w1 = (Val tt, w1)
  ∧ writes (new_events w1 w2) = []
  ∧ checkpoint_file w2 = checkpoint_file w1
  ∧ length (repos_of (default ∅ (checkpoint_file w2)) c p)
    = length (repos_of (default ∅ (checkpoint_file w1)) c p).
Proof.
  intros doc w1 w2.
  assert (Hsecond : save_checkpoint c p r w1 = (Val tt, w1)).
  { subst w1. rewrite (save_checkpoint_eq c p r w). fold doc. cbn zeta.
    destruct (ledger_contains doc c p r) eqn:Hin; cbn [snd].
    - rewrite save_checkpoint_eq. fold doc. cbn zeta. by rewrite Hin.
    - rewrite save_checkpoint_eq. cbn [checkpoint_file emit set_checkpoint_file default from_option id].
      cbn zeta. by rewrite ledger_contains_record. }
  assert (Hw2 : w2 = w1) by (subst w2; by rewrite Hsecond).
  split; [|rewrite Hw2, new_events_same; done].
  subst w1. rewrite (save_checkpoint_eq c p r w). fold doc. cbn zeta.
  destruct (ledger_contains doc c p r) eqn:Hin; [done|]. cbn [snd].
  split_and!.
  - rewrite (new_events_app _ _ [EvWrite (Some 4) (record doc c p r);
      EvLog INFO ("Checkpoint updated: " +:+ r +:+ " saved under " +:+ c +:+ "/" +:+ p +:+ ".")]);
      [done|]. cbn. by rewrite <- app_assoc.
  - done.
  - rewrite ledger_contains_spec in Hin. by apply bool_decide_eq_false in Hin.
  - rewrite repos_of_record. by rewrite bool_decide_eq_true_2.
  - intros c' p' Hne. rewrite repos_of_record. by rewrite bool_decide_eq_false_2.
Qed.

(** C6: ledger round trip.  Whatever the ledger state, after
    [save_checkpoint] the file holds a document, [load_checkpoint] returns
    exactly that document and leaves the world as it is, and the document
    is the one [save_checkpoint] wrote (or, when it had nothing to write,
    the one that was there).  Membership is preserved: a triple is in the
    reloaded mapping exactly when it was in the ledger before or is the
    triple just recorded.  The same holds for any document written
    directly with [json.dump]. *)
Theorem ledger_round_trip (c p r : string) (w : world) :
  let doc := default ∅ (checkpoint_file w) in
  let w1 := (save_checkpoint c p r w).2 in
  let written := if ledger_contains doc c p r then doc else record doc c p r in
  checkpoint_file w1 = Some written
  ∧ load_checkpoint w1 = (Val written, w1)
  ∧ (∀ c' p' r',
       ledger_contains written c' p' r'
       = ledger_contains doc c' p' r' || bool_decide (c' = c ∧ p' = p ∧ r' = r))
  ∧ (∀ (d : ledger) (indent : option Z),
       (json_dump_checkpoint d indent ;; load_checkpoint) w
       = (Val d, (json_dump_checkpoint d indent w).2)).
Proof.
  intros doc w1 written.
  assert (Hfile : checkpoint_file w1 = Some written).
  { subst w1 written. rewrite save_checkpoint_eq. fold doc. cbn zeta.
    destruct (ledger_contains doc c p r) eqn:Hin; [|done]. cbn [snd].
    subst doc. destruct (checkpoint_file w); [done|].
    cbn in Hin. by rewrite migrated_missing_file in Hin. }
  split_and!.
  - done.
  - by rewrite load_checkpoint_eq, Hfile.
  - intros c' p' r'. subst written.
    destruct (ledger_contains doc c p r) eqn:Hin.
    + case_bool_decide as H; [|by rewrite orb_false_r].
      destruct H as (-> & -> & ->). by rewrite Hin.
    + rewrite !ledger_contains_spec, repos_of_record.
      destruct (decide (c' = c ∧ p' = p)) as [[-> ->]|H1].
      * rewrite (bool_decide_eq_true_2 (c = c ∧ p = p)) by done.
        apply eq_true_iff_eq. rewrite orb_true_iff, !bool_decide_eq_true.
        rewrite elem_of_app, list_elem_of_singleton.
        split; (intros [?|H]; [by left|right]); [by subst|by destruct H as (_ & _ & ->)].
      * rewrite (bool_decide_eq_false_2 (c' = c ∧ p' = p)) by done.
        rewrite (bool_decide_eq_false_2 (c' = c ∧ p' = p ∧ r' = r))
          by (intros (? & ? & ?); by apply H1).
        by rewrite orb_false_r.
  - intros d indent. unfold bind, json_dump_checkpoint.
    by rewrite load_checkpoint_eq.
Qed.

(** ** The state follows the trace *)

Section Evolves.
Implicit Types (w : world) (evs : list event).

Lemma evolves_refl w : evolves w w [].
Proof. by split; rewrite ?app_nil_r. Qed.

Lemma evolves_trans w1 w2 w3 evs1 evs2 :
  evolves w1 w2 evs1 → evolves w2 w3 evs2 → evolves w1 w3 (evs1 ++ evs2).
Proof.
  intros [Ht1 Hc1 Hf1 Hr1 Hd1 Hh1 Hs1 Hn1] [Ht2 Hc2 Hf2 Hr2 Hd2 Hh2 Hs2 Hn2].
  split.
  - by rewrite Ht2, Ht1, app_assoc.
  - unfold last_chdir in *. by rewrite foldl_app, <- Hc1.
  - unfold last_write in *. by rewrite foldl_app, <- Hf1.
  - unfold root_after in *. by rewrite foldl_app, <- Hr1.
  - by etrans.
  - congruence.
  - congruence.
  - congruence.
Qed.

Lemma evolves_new_events w w' evs : evolves w w' evs → new_events w w' = evs.
Proof. intros H. apply new_events_app, H. Qed.

Lemma evolves_emit w e : quiet e → evolves w (emit e w) [e].
Proof. intros H. split; try done; by destruct e. Qed.

Lemma evolves_set_dirs w w' evs (d : gset string) :
  evolves w w' evs → dirs w' ⊆ d → evolves w (set_dirs d w') evs.
Proof. intros [] Hd. split; try done. cbn. by etrans. Qed.

Lemma checkpoint_file_emit e w : checkpoint_file (emit e w) = checkpoint_file w.
Proof. reflexivity. Qed.

Lemma dirs_emit e w : dirs (emit e w) = dirs w.
Proof. reflexivity. Qed.

Lemma evolves_write w indent doc :
  evolves w (set_checkpoint_file (Some doc) (emit (EvWrite indent doc) w))
    [EvWrite indent doc].
Proof. by split. Qed.

Lemma evolves_chdir w p :
  evolves w (set_cwd p (emit (EvChdir p) w)) [EvChdir p].
Proof. by split. Qed.

Lemma last_chdir_quiet evs d :
  Forall (λ e, ∀ p, e ≠ EvChdir p) evs → last_chdir evs d = d.
Proof.
  unfold last_chdir. induction evs as [|e evs IH] using rev_ind; [done|].
  rewrite Forall_app, Forall_singleton. intros [H1 H2].
  rewrite foldl_app. cbn. destruct e; try by apply IH.
  by destruct (H2 path).
Qed.

Lemma last_write_quiet evs d :
  Forall (λ e, ∀ i doc, e ≠ EvWrite i doc) evs → last_write evs d = d.
Proof.
  unfold last_write. induction evs as [|e evs IH] using rev_ind; [done|].
  rewrite Forall_app, Forall_singleton. intros [H1 H2].
  rewrite foldl_app. cbn. destruct e; try by apply IH.
  by destruct (H2 indent doc).
Qed.

Lemma root_after_quiet evs d :
  Forall (λ e, ∀ p, e ≠ EvOpenLog p) evs → root_after evs d = d.
Proof.
  unfold root_after. induction evs as [|e evs IH] using rev_ind; [done|].
  rewrite Forall_app, Forall_singleton. intros [H1 H2].
  rewrite foldl_app. cbn. destruct e; try by apply IH.
  by destruct (H2 path).
Qed.
End Evolves.

Section RunSpec.
Context (P : event → Prop).

Lemma rs_ret {A} (a : A) : run_spec P (ret a).
Proof. intros w. exists []. split; [apply evolves_refl|done]. Qed.

Lemma rs_raise {A} (e : exn) : run_spec P (@raise A e).
Proof. intros w. exists []. split; [apply evolves_refl|done]. Qed.

Lemma rs_act (e : event) : quiet e → P e → run_spec P (act e).
Proof.
  intros Hq HP w. exists [e]. split; [by apply evolves_emit|].
  by apply Forall_singleton.
Qed.

Lemma rs_logging lvl msg : P (EvLog lvl msg) → run_spec P (logging lvl msg).
Proof. by apply rs_act. Qed.

Lemma rs_sleep z : P (EvSleep z) → run_spec P (sleep z).
Proof. by apply rs_act. Qed.

Lemma rs_getcwd : run_spec P getcwd.
Proof. intros w. exists []. split; [apply evolves_refl|done]. Qed.

Lemma rs_path_exists p : run_spec P (path_exists p).
Proof. intros w. exists []. split; [apply evolves_refl|done]. Qed.

Lemma rs_checkpoint_exists : run_spec P checkpoint_exists.
Proof. intros w. exists []. split; [apply evolves_refl|done]. Qed.

Lemma rs_json_load_checkpoint : run_spec P json_load_checkpoint.
Proof.
  intros w. exists []. split; [|done].
  unfold json_load_checkpoint. destruct (checkpoint_file w); apply evolves_refl.
Qed.

Lemma rs_json_dump_checkpoint doc indent :
  P (EvWrite indent doc) → run_spec P (json_dump_checkpoint doc indent).
Proof.
  intros HP w. exists [EvWrite indent doc]. split; [by split|].
  by apply Forall_singleton.
Qed.

Lemma rs_makedirs p : P (EvMakedirs p) → run_spec P (makedirs p).
Proof.
  intros HP w. exists [EvMakedirs p]. split; [|by apply Forall_singleton].
  cbn. apply evolves_set_dirs; [by apply evolves_emit|]. cbn. set_solver.
Qed.

Lemma rs_chdir p : P (EvChdir p) → run_spec P (chdir p).
Proof.
  intros HP w. unfold chdir. case_bool_decide.
  - exists [EvChdir p]. split; [by split|]. by apply Forall_singleton.
  - exists []. split; [apply evolves_refl|done].
Qed.

Lemma rs_requests_get url headers :
  P (EvGet url headers) → run_spec P (requests_get url headers).
Proof.
  intros HP w. exists [EvGet url headers]. split; [|by apply Forall_singleton].
  unfold requests_get. destruct (http_get w _ _ _); by apply evolves_emit.
Qed.

Lemma rs_subprocess_run_check command :
  P (EvRun command) → run_spec P (subprocess_run_check command).
Proof.
  intros HP w. exists [EvRun command]. split; [|by apply Forall_singleton].
  unfold subprocess_run_check. cbn zeta.
  assert (evolves w
            (set_dirs (dirs w ∪ list_to_set (creates (subprocess_run w (trace w) command)))
               (emit (EvRun command) w)) [EvRun command]) as H.
  { apply evolves_set_dirs; [by apply evolves_emit|]. cbn. set_solver. }
  destruct (status _) as [rc|msg]; [case_bool_decide|]; exact H.
Qed.

Lemma rs_bind {A B} (m : M A) (k : A → M B) :
  run_spec P m → (∀ a, run_spec P (k a)) → run_spec P (bind m k).
Proof.
  intros Hm Hk w. destruct (Hm w) as (evs1 & He1 & HP1).
  unfold bind. destruct (m w) as [[a|e] w1]; cbn in *.
  - destruct (Hk a w1) as (evs2 & He2 & HP2).
    exists (evs1 ++ evs2). split; [by eapply evolves_trans|by apply Forall_app].
  - by exists evs1.
Qed.

Lemma rs_try_except {A} (body : M A) (handler : exn → M A) :
  run_spec P body → (∀ e, run_spec P (handler e)) → run_spec P (try_except body handler).
Proof.
  intros Hm Hk w. destruct (Hm w) as (evs1 & He1 & HP1).
  unfold try_except. destruct (body w) as [[a|e] w1]; cbn in *.
  - by exists evs1.
  - destruct (Hk e w1) as (evs2 & He2 & HP2).
    exists (evs1 ++ evs2). split; [by eapply evolves_trans|by apply Forall_app].
Qed.

Lemma rs_try_finally {A} (body : M A) (fin : M unit) :
  run_spec P body → run_spec P fin → run_spec P (try_finally body fin).
Proof.
  intros Hm Hk w. destruct (Hm w) as (evs1 & He1 & HP1).
  unfold try_finally. destruct (body w) as [r w1]; cbn in *.
  destruct (Hk w1) as (evs2 & He2 & HP2).
  exists (evs1 ++ evs2).
  destruct (fin w1) as [[[]|e] w2]; cbn in *;
    (split; [by eapply evolves_trans|by apply Forall_app]).
Qed.
End RunSpec.

Lemma rs_mono {A} (P Q : event → Prop) (m : M A) :
  (∀ e, P e → Q e) → run_spec P m → run_spec Q m.
Proof.
  intros HPQ Hm w. destruct (Hm w) as (evs & He & HP).
  exists evs. split; [done|]. by eapply Forall_impl.
Qed.

(** ** The retry wrapper *)

Section Retry.
Context (command : list string) (retries : Z).

Lemma failed_rounds_S a n :
  failed_rounds command retries a (S n)
  = failed_round command retries a ++ failed_rounds command retries (S a) n.
Proof. done. Qed.

Lemma failed_rounds_snoc a n :
  failed_rounds command retries a (S n)
  = failed_rounds command retries a n ++ failed_round command retries (a + n).
Proof.
  unfold failed_rounds. rewrite seq_S, flat_map_app. cbn [flat_map].
  by rewrite app_nil_r.
Qed.

Lemma after_failed_round_evolves a w :
  evolves w (after_failed_round command retries a w) (failed_round command retries a).
Proof.
  split; try done.
  - cbn. by rewrite <- !app_assoc.
  - cbn. set_solver.
Qed.

Lemma retry_loop_step a remaining w :
  retry_loop command retries (Z.of_nat a) (S remaining) w =
    match status (subprocess_run w (trace w) command) with
    | Exited rc =>
        if bool_decide (rc = 0)
        then (Val tt, set_dirs (dirs w ∪ list_to_set (creates (subprocess_run w (trace w) command)))
                        (emit (EvRun command) w))
        else retry_loop command retries (Z.of_nat (S a)) remaining (after_failed_round command retries a w)
    | SpawnFailed msg =>
        (Exc (OSError msg),
         set_dirs (dirs w ∪ list_to_set (creates (subprocess_run w (trace w) command)))
           (emit (EvRun command) w))
    end.
Proof.
  cbn [retry_loop]. unfold subprocess_run_check. cbn zeta.
  destruct (status _) as [rc|msg]; [|done].
  case_bool_decide; [done|].
  unfold bind, logging, sleep, act, after_failed_round.
  by rewrite Nat2Z.inj_succ.
Qed.

(** Every round fails: the loop runs dry and the terminal error follows. *)
Lemma retry_loop_exhausted remaining : ∀ a w,
  (∀ j, (j < remaining)%nat →
     exits_nonzero (status (subprocess_run w
       (trace w ++ failed_rounds command retries a j) command)) = true) →
  ∃ w', retry_loop command retries (Z.of_nat a) remaining w
        = (Exc (retries_exhausted command retries), w')
        ∧ evolves w w' (failed_rounds command retries a remaining).
Proof.
  induction remaining as [|remaining IH]; intros a w Hfail.
  - exists w. split; [done|apply evolves_refl].
  - rewrite retry_loop_step.
    pose proof (Hfail O ltac:(lia)) as H0. cbn in H0. rewrite app_nil_r in H0.
    destruct (status (subprocess_run w (trace w) command)) as [rc|msg]; [|done]. cbn in H0.
    destruct (bool_decide (rc = 0)); [done|].
    pose proof (after_failed_round_evolves a w) as Hev.
    destruct (IH (S a) (after_failed_round command retries a w)) as (w' & Hrun & Hev').
    { intros j Hj. rewrite (ev_subprocess _ _ _ Hev), (ev_trace _ _ _ Hev).
      rewrite <- app_assoc, <- failed_rounds_S. apply Hfail. lia. }
    exists w'. split; [done|].
    rewrite failed_rounds_S. by eapply evolves_trans.
Qed.

(** Round [k] is the first to exit with zero: the loop returns there. *)
Lemma retry_loop_returns k : ∀ remaining a w,
  (k < remaining)%nat →
  (∀ j, (j < k)%nat →
     exits_nonzero (status (subprocess_run w
       (trace w ++ failed_rounds command retries a j) command)) = true) →
  exits_zero (status (subprocess_run w
    (trace w ++ failed_rounds command retries a k) command)) = true →
  ∃ w', retry_loop command retries (Z.of_nat a) remaining w = (Val tt, w')
        ∧ evolves w w' (failed_rounds command retries a k ++ [EvRun command]).
Proof.
  induction k as [|k IH]; intros remaining a w Hk Hfail Hok.
  - destruct remaining as [|remaining]; [lia|].
    rewrite retry_loop_step. cbn in Hok. rewrite app_nil_r in Hok.
    destruct (status (subprocess_run w (trace w) command)) as [rc|msg]; [|done]. cbn in Hok. rewrite Hok.
    eexists. split; [done|].
    apply evolves_set_dirs; [by apply evolves_emit|]. cbn. set_solver.
  - destruct remaining as [|remaining]; [lia|].
    rewrite retry_loop_step.
    pose proof (Hfail O ltac:(lia)) as H0. cbn in H0. rewrite app_nil_r in H0.
    destruct (status (subprocess_run w (trace w) command)) as [rc|msg]; [|done]. cbn in H0.
    destruct (bool_decide (rc = 0)); [done|].
    pose proof (after_failed_round_evolves a w) as Hev.
    destruct (IH remaining (S a) (after_failed_round command retries a w)) as (w' & Hrun & Hev').
    { lia. }
    { intros j Hj. rewrite (ev_subprocess _ _ _ Hev), (ev_trace _ _ _ Hev).
      rewrite <- app_assoc, <- failed_rounds_S. apply Hfail. lia. }
    { rewrite (ev_subprocess _ _ _ Hev), (ev_trace _ _ _ Hev).
      by rewrite <- app_assoc, <- failed_rounds_S. }
    exists w'. split; [done|].
    rewrite failed_rounds_S, <- app_assoc. by eapply evolves_trans.
Qed.

Lemma commands_failed_rounds a n :
  commands (failed_rounds command retries a n) = replicate n command.
Proof.
  revert a. induction n as [|n IH]; intros a; [done|].
  rewrite failed_rounds_S. cbn. by rewrite <- (IH (S a)).
Qed.

Lemma delays_failed_rounds a n :
  delays (failed_rounds command retries a n) = (λ k, 2 ^ Z.of_nat k) <$> seq a n.
Proof.
  revert a. induction n as [|n IH]; intros a; [done|].
  rewrite failed_rounds_S. cbn. by rewrite <- (IH (S a)).
Qed.
End Retry.

Lemma retry_subprocess_rounds (command : list string) (n : Z) (w : world) :
  let run := retry_subprocess command n w in
  ((∀ k, (k < Z.to_nat n)%nat → exits_nonzero (status_at w command n k) = true) →
     run.1 = Exc (retries_exhausted command n)
     ∧ evolves w run.2 (failed_rounds command n 0 (Z.to_nat n)))
  ∧ (∀ k, (k < Z.to_nat n)%nat →
       (∀ j, (j < k)%nat → exits_nonzero (status_at w command n j) = true) →
       exits_zero (status_at w command n k) = true →
       run.1 = Val tt
       ∧ evolves w run.2 (failed_rounds command n 0 k ++ [EvRun command])).
Proof.
  cbn zeta. unfold retry_subprocess. change 0 with (Z.of_nat 0). split.
  - intros Hfail.
    destruct (retry_loop_exhausted command n (Z.to_nat n) 0%nat w Hfail) as (w' & -> & Hev).
    done.
  - intros k Hk Hfail Hok.
    destruct (retry_loop_returns command n k (Z.to_nat n) 0%nat w Hk Hfail Hok)
      as (w' & -> & Hev).
    done.
Qed.

(** C4, as amended: for every command and retry bound [n], if the command
    exits non-zero at each of its invocations, the wrapper invokes it
    exactly [n] times, each failed invocation followed by a warning and a
    delay of [2^attempt] time units, so that the delays are 1, 2, 4, ...,
    [2^(n-1)], the last of them after the final invocation, and then
    raises the terminal error that names the attempt count and the
    command.  If invocation [k] is the first to exit with zero, the wrapper
    returns right after it: [k+1] invocations, the [k] delays of the failed
    ones, and the zero-exit invocation as the last event. *)
Theorem retry_subprocess_contract (command : list string) (n : Z) (w : world) :
  let run := retry_subprocess command n w in
  let evs := new_events w run.2 in
  ((∀ k, (k < Z.to_nat n)%nat → exits_nonzero (status_at w command n k) = true) →
     run.1 = Exc (Exception ("Command failed after " +:+ pretty n +:+ " retries: "
                             +:+ repr_list command))
     ∧ evs = failed_rounds command n 0 (Z.to_nat n)
     ∧ commands evs = replicate (Z.to_nat n) command
     ∧ delays evs = (λ k, 2 ^ Z.of_nat k) <$> seq 0 (Z.to_nat n))
  ∧ (∀ k, (k < Z.to_nat n)%nat →
       (∀ j, (j < k)%nat → exits_nonzero (status_at w command n j) = true) →
       exits_zero (status_at w command n k) = true →
       run.1 = Val tt
       ∧ evs = failed_rounds command n 0 k ++ [EvRun command]
       ∧ commands evs = replicate (S k) command
       ∧ delays evs = (λ j, 2 ^ Z.of_nat j) <$> seq 0 k).
Proof.
  intros run evs. destruct (retry_subprocess_rounds command n w) as [Hfail Hok].
  subst evs run. split.
  - intros H. destruct (Hfail H) as [Hr Hev].
    rewrite (evolves_new_events _ _ _ Hev).
    by rewrite commands_failed_rounds, delays_failed_rounds.
  - intros k Hk H1 H2. destruct (Hok k Hk H1 H2) as [Hr Hev].
    rewrite (evolves_new_events _ _ _ Hev).
    split_and!; [done|done| |].
    + unfold commands. rewrite flat_map_app. fold (commands (failed_rounds command n 0 k)).
      rewrite commands_failed_rounds. cbn.
      by rewrite <- replicate_cons_app.
    + unfold delays. rewrite flat_map_app. fold (delays (failed_rounds command n 0 k)).
      rewrite delays_failed_rounds. cbn. by rewrite app_nil_r.
Qed.

(** With the default bound and a command that never succeeds: three
    invocations, the delays 1, 2 and 4, and the terminal error. *)
Lemma retry_subprocess_contract_witness :
  (retry_subprocess sample_command default_retries (sample_world None 200 (run_exit 1))).1
  = Exc (Exception "Command failed after 3 retries: ['git', 'fetch', 'origin', 'main']")
  ∧ (retry_subprocess sample_command default_retries (sample_world None 200 (run_flaky 1))).1
    = Val tt.
Proof.
  split.
  - apply (retry_subprocess_contract sample_command default_retries
             (sample_world None 200 (run_exit 1))).
    intros k Hk. reflexivity.
  - apply (proj2 (retry_subprocess_contract sample_command default_retries
                    (sample_world None 200 (run_flaky 1))) 1%nat).
    + vm_compute. lia.
    + intros j Hj. assert (j = 0%nat) as -> by lia. reflexivity.
    + reflexivity.
Defined.

(** C4, as stated, fails: with the default bound and a command that never
    succeeds, the third and last invocation is still followed by a delay,
    of 4 time units, before the error is raised; the delays are not only
    those between the attempts. *)
Lemma retry_subprocess_delay_after_last_attempt :
  let w := sample_world None 200 (run_exit 1) in
  let run := retry_subprocess sample_command default_retries w in
  run.1 = Exc (Exception "Command failed after 3 retries: ['git', 'fetch', 'origin', 'main']")
  ∧ commands (new_events w run.2) = replicate 3 sample_command
  ∧ last (new_events w run.2) = Some (EvSleep 4)
  ∧ delays (new_events w run.2) = [1; 2; 4]
  ∧ delays (new_events w run.2) ≠ delays_between 3.
Proof. vm_compute. split_and!; try reflexivity. discriminate. Qed.

Lemma commands_app (evs1 evs2 : list event) :
  commands (evs1 ++ evs2) = commands evs1 ++ commands evs2.
Proof. apply flat_map_app. Qed.

Lemma delays_app (evs1 evs2 : list event) :
  delays (evs1 ++ evs2) = delays evs1 ++ delays evs2.
Proof. apply flat_map_app. Qed.

Lemma writes_app (evs1 evs2 : list event) :
  writes (evs1 ++ evs2) = writes evs1 ++ writes evs2.
Proof. apply flat_map_app. Qed.

Lemma chdirs_app (evs1 evs2 : list event) :
  chdirs (evs1 ++ evs2) = chdirs evs1 ++ chdirs evs2.
Proof. apply flat_map_app. Qed.

Lemma gets_app (evs1 evs2 : list event) :
  gets (evs1 ++ evs2) = gets evs1 ++ gets evs2.
Proof. apply flat_map_app. Qed.

(** Whatever the environment does, [retry_subprocess] runs its command, and
    nothing else, between one time and [retries] times. *)
Lemma retry_loop_shape (command : list string) (retries : Z) (remaining : nat) :
  ∀ a w, ∃ i evs,
    evolves w (retry_loop command retries (Z.of_nat a) remaining w).2 evs
    ∧ commands evs = replicate i command
    ∧ (i ≤ remaining)%nat
    ∧ (0 < remaining → 1 ≤ i)%nat
    ∧ Forall (only (λ c, bool_decide (c = command))) evs.
Proof.
  induction remaining as [|remaining IH]; intros a w.
  - exists 0%nat, []. split_and!; [apply evolves_refl|done|lia|lia|done].
  - rewrite retry_loop_step.
    assert (evolves w
              (set_dirs (dirs w ∪ list_to_set (creates (subprocess_run w (trace w) command)))
                 (emit (EvRun command) w)) [EvRun command]) as Hone.
    { apply evolves_set_dirs; [by apply evolves_emit|]. cbn. set_solver. }
    assert (Forall (only (λ c, bool_decide (c = command))) [EvRun command]) as Hrun.
    { apply Forall_singleton. cbn. by apply bool_decide_eq_true. }
    destruct (status _) as [rc|msg].
    + case_bool_decide.
      * exists 1%nat, [EvRun command]. split_and!; [done|done|lia|lia|done].
      * destruct (IH (S a) (after_failed_round command retries a w))
          as (i & evs & Hev & Hc & Hi & Hpos & Hall).
        exists (S i), (failed_round command retries a ++ evs). split_and!.
        -- eapply evolves_trans; [apply after_failed_round_evolves|done].
        -- rewrite commands_app, Hc. done.
        -- lia.
        -- lia.
        -- apply Forall_app. split; [|done].
           repeat constructor. cbn. by apply bool_decide_eq_true.
    + exists 1%nat, [EvRun command]. split_and!; [done|done|lia|lia|done].
Qed.

Lemma retry_subprocess_shape (command : list string) (w : world) :
  ∃ i evs,
    evolves w (retry_subprocess command default_retries w).2 evs
    ∧ commands evs = replicate i command
    ∧ (1 ≤ i ≤ 3)%nat
    ∧ Forall (only (λ c, bool_decide (c = command))) evs.
Proof.
  destruct (retry_loop_shape command default_retries 3 0 w)
    as (i & evs & Hev & Hc & Hi & Hpos & Hall).
  exists i, evs. split_and!; [done|done|lia|lia|done].
Qed.

Lemma retry_subprocess_first_try (command : list string) (w : world) :
  exits_zero (status (subprocess_run w (trace w) command)) = true →
  ∃ w', retry_subprocess command default_retries w = (Val tt, w')
        ∧ evolves w w' [EvRun command].
Proof.
  intros Hok.
  destruct (retry_loop_returns command default_retries 0 3 0 w) as (w' & Hrun & Hev);
    [lia|lia| |by exists w'].
  cbn. by rewrite app_nil_r.
Qed.

Lemma only_impl (allowed : list string → bool) (P : event → Prop) :
  (∀ c, allowed c = true → P (EvRun c)) →
  (∀ l m, P (EvLog l m)) → (∀ z, P (EvSleep z)) →
  ∀ e, only allowed e → P e.
Proof. intros Hrun Hlog Hsleep [] He; cbn in He; try done; auto. Qed.

Lemma rs_retry_subprocess (allowed : list string → bool) (command : list string) (retries : Z) :
  allowed command = true →
  run_spec (only allowed) (retry_subprocess command retries).
Proof.
  intros Hrun w.
  destruct (retry_loop_shape command retries (Z.to_nat retries) 0 w)
    as (i & evs & Hev & _ & _ & _ & Hall).
  exists evs. split; [done|].
  eapply Forall_impl; [exact Hall|].
  apply only_impl; try done.
  intros c Hc. apply bool_decide_eq_true in Hc. by subst.
Qed.

(** ** The branch-list push *)

Section Branches.
Context (url : string).

Lemma migrate_branches_cons branch rest w :
  migrate_branches url (branch :: rest) w =
    let w0 := emit (EvLog INFO ("Pushing specific branch: " +:+ branch)) w in
    match retry_subprocess (fetch_command branch) default_retries w0 with
    | (Val _, w1) =>
        match retry_subprocess (push_command url branch) default_retries w1 with
        | (Val _, w2) => migrate_branches url rest w2
        | (Exc e, w2) => (Exc e, w2)
        end
    | (Exc e, w1) => (Exc e, w1)
    end.
Proof. done. Qed.

(** Sequencing: the branches of [bs1] are dealt with before any of [bs2],
    and an exception among them leaves [bs2] untouched. *)
Lemma migrate_branches_app bs1 bs2 w :
  migrate_branches url (bs1 ++ bs2) w =
    match migrate_branches url bs1 w with
    | (Val _, w1) => migrate_branches url bs2 w1
    | (Exc e, w1) => (Exc e, w1)
    end.
Proof.
  revert w. induction bs1 as [|b bs1 IH]; intros w; [done|].
  rewrite <- app_comm_cons, !migrate_branches_cons. cbn zeta.
  destruct (retry_subprocess (fetch_command b) _ _) as [[[]|e1] w1]; [|done].
  destruct (retry_subprocess (push_command url b) _ _) as [[[]|e2] w2]; [|done].
  apply IH.
Qed.

(** The commands of a run, branch by branch. *)
Lemma migrate_branches_grouped bs : ∀ w,
  ∃ (ns : list (nat * nat)) evs,
    evolves w (migrate_branches url bs w).2 evs
    ∧ commands evs = flat_map (branch_commands url) (zip bs ns)
    ∧ Forall branch_counts_ok ns
    ∧ (length ns ≤ length bs)%nat
    ∧ Forall (λ x, 1 ≤ x.2)%nat (take (length ns - 1) ns)
    ∧ ((migrate_branches url bs w).1 = Val tt →
         length ns = length bs ∧ Forall (λ x, 1 ≤ x.2)%nat ns)
    ∧ Forall (only (λ c, negb (is_clone c))) evs.
Proof.
  induction bs as [|b bs IH]; intros w.
  - exists [], []. split_and!; try done. apply evolves_refl.
  - rewrite migrate_branches_cons. cbn zeta.
    set (w0 := emit _ w).
    assert (evolves w w0 [EvLog INFO ("Pushing specific branch: " +:+ b)]) as Hlog
      by by apply evolves_emit.
    destruct (retry_subprocess_shape (fetch_command b) w0)
      as (i & evs1 & Hev1 & Hc1 & Hi & Hall1).
    assert (Forall (only (λ c, negb (is_clone c))) evs1) as Hall1'.
    { eapply Forall_impl; [exact Hall1|]. apply only_impl; try done.
      intros c Hc. apply bool_decide_eq_true in Hc. by subst. }
    destruct (retry_subprocess (fetch_command b) _ w0) as [[[]|e1] w1]; cbn [snd] in Hev1.
    + destruct (retry_subprocess_shape (push_command url b) w1)
        as (j & evs2 & Hev2 & Hc2 & Hj & Hall2).
      assert (Forall (only (λ c, negb (is_clone c))) evs2) as Hall2'.
      { eapply Forall_impl; [exact Hall2|]. apply only_impl; try done.
        intros c Hc. apply bool_decide_eq_true in Hc. by subst. }
      destruct (retry_subprocess (push_command url b) _ w1) as [[[]|e2] w2];
        cbn [snd] in Hev2.
      * destruct (IH w2) as (ns & evs3 & Hev3 & Hc3 & Hns & Hlen & Hmid & Hval & Hall3).
        exists ((i, j) :: ns), ([EvLog INFO ("Pushing specific branch: " +:+ b)]
                                  ++ evs1 ++ evs2 ++ evs3).
        split_and!.
        -- eapply evolves_trans; [done|]. eapply evolves_trans; [done|].
           by eapply evolves_trans.
        -- rewrite !commands_app, Hc1, Hc2, Hc3. cbn. unfold branch_commands at 2.
           cbn. by rewrite <- app_assoc.
        -- constructor; [|done]. split; cbn; lia.
        -- cbn. lia.
        -- destruct ns as [|n ns]; [done|].
           cbn [length]. rewrite Nat.sub_succ, Nat.sub_0_r.
           cbn [length] in Hmid. rewrite Nat.sub_succ, Nat.sub_0_r in Hmid.
           cbn [take]. constructor; [cbn; lia|done].
        -- intros Hr. destruct (Hval Hr) as [Hl Hp]. split; [cbn; lia|].
           constructor; [cbn; lia|done].
        -- repeat (apply Forall_app; split); try done. by repeat constructor.
      * exists [(i, j)], ([EvLog INFO ("Pushing specific branch: " +:+ b)] ++ evs1 ++ evs2).
        split_and!.
        -- eapply evolves_trans; [done|]. by eapply evolves_trans.
        -- rewrite !commands_app, Hc1, Hc2. cbn. unfold branch_commands.
           cbn. by rewrite zip_with_nil_r, ?app_nil_r.
        -- constructor; [|done]. split; cbn; lia.
        -- cbn. lia.
        -- done.
        -- done.
        -- repeat (apply Forall_app; split); try done. by repeat constructor.
    + exists [(i, 0%nat)], ([EvLog INFO ("Pushing specific branch: " +:+ b)] ++ evs1).
      split_and!.
      * by eapply evolves_trans.
      * rewrite !commands_app, Hc1. cbn. unfold branch_commands.
        cbn. by rewrite zip_with_nil_r, ?app_nil_r.
      * constructor; [|done]. split; cbn; lia.
      * cbn. lia.
      * done.
      * done.
      * repeat (apply Forall_app; split); try done. by repeat constructor.
Qed.

(** When every command exits with zero at once. *)
Lemma migrate_branches_clean bs : ∀ w,
  (∀ h c, exits_zero (status (subprocess_run w h c)) = true) →
  (migrate_branches url bs w).1 = Val tt
  ∧ evolves w (migrate_branches url bs w).2 (flat_map (clean_branch_events url) bs).
Proof.
  induction bs as [|b bs IH]; intros w Hok.
  - split; [done|apply evolves_refl].
  - rewrite migrate_branches_cons. cbn zeta.
    set (w0 := emit _ w).
    assert (evolves w w0 [EvLog INFO ("Pushing specific branch: " +:+ b)]) as Hlog
      by by apply evolves_emit.
    destruct (retry_subprocess_first_try (fetch_command b) w0) as (w1 & -> & Hev1);
      [apply Hok|].
    destruct (retry_subprocess_first_try (push_command url b) w1) as (w2 & -> & Hev2).
    { rewrite (ev_subprocess _ _ _ Hev1). apply Hok. }
    destruct (IH w2) as [Hr Hev3].
    { intros h c. rewrite (ev_subprocess _ _ _ Hev2), (ev_subprocess _ _ _ Hev1). apply Hok. }
    split; [done|].
    change (flat_map (clean_branch_events url) (b :: bs))
      with ([EvLog INFO ("Pushing specific branch: " +:+ b)]
              ++ [EvRun (fetch_command b)]
              ++ [EvRun (push_command url b)]
              ++ flat_map (clean_branch_events url) bs).
    apply (evolves_trans _ w0 _ _ _ Hlog). apply (evolves_trans _ w1 _ _ _ Hev1).
    apply (evolves_trans _ w2 _ _ _ Hev2). exact Hev3.
Qed.
End Branches.

(** C7: for every explicit branch list, the branches are dealt with
    strictly in the order given.  The commands of the run are a
    concatenation of groups, one per branch and in list order; the group of
    a branch is its fetches [git fetch origin <branch>] (one to three,
    because of the retries) followed by its pushes of
    [refs/remotes/origin/<branch>:refs/heads/<branch>] (at most three);
    every group but the last has a push, the run returns only when every
    branch has its group and its push, and a group is there only for the
    branches up to the one that failed.  A failure on a branch propagates:
    the run over [bs1 ++ bs2] ends with the exception and in the world of
    the run over [bs1], nothing of [bs2] being touched; and when [bs1]
    succeeds the run goes on with [bs2] from the world [bs1] left.  When
    every command succeeds at once the trace is, branch after branch, the
    log line, the fetch, the push. *)
Theorem branch_list_push_order (repo_dir url : string) (bs : list string) (w : world) :
  let run := migrate_specific_branches repo_dir url (BList bs) w in
  (∃ ns : list (nat * nat),
      commands (new_events w run.2) = flat_map (branch_commands url) (zip bs ns)
      ∧ Forall branch_counts_ok ns
      ∧ (length ns ≤ length bs)%nat
      ∧ Forall (λ x, 1 ≤ x.2)%nat (take (length ns - 1) ns)
      ∧ (run.1 = Val tt → length ns = length bs ∧ Forall (λ x, 1 ≤ x.2)%nat ns))
  ∧ (∀ bs1 bs2 e w1, bs = bs1 ++ bs2 →
       migrate_specific_branches repo_dir url (BList bs1) w = (Exc e, w1) →
       run = (Exc e, w1))
  ∧ (∀ bs1 bs2 w1, bs = bs1 ++ bs2 →
       migrate_specific_branches repo_dir url (BList bs1) w = (Val tt, w1) →
       run = migrate_specific_branches repo_dir url (BList bs2) w1)
  ∧ ((∀ h c, exits_zero (status (subprocess_run w h c)) = true) →
       run.1 = Val tt
       ∧ new_events w run.2 = flat_map (clean_branch_events url) bs).
Proof.
  intros run. subst run. unfold migrate_specific_branches. cbn [py_iter].
  split_and!.
  - destruct (migrate_branches_grouped url bs w)
      as (ns & evs & Hev & Hc & Hns & Hlen & Hmid & Hval & _).
    exists ns. by rewrite (evolves_new_events _ _ _ Hev).
  - intros bs1 bs2 e w1 -> H. by rewrite migrate_branches_app, H.
  - intros bs1 bs2 w1 -> H. by rewrite migrate_branches_app, H.
  - intros Hok. destruct (migrate_branches_clean url bs w Hok) as [Hr Hev].
    by rewrite (evolves_new_events _ _ _ Hev).
Qed.

(** The branches "main" and "feature-x" against a remote that accepts
    everything: "main" is fetched and pushed before "feature-x" is. *)
Lemma branch_list_push_order_witness :
  let w := sample_world None 200 (run_exit 0) in
  let url := github_repo_url_of sample_config in
  new_events w (migrate_specific_branches "" url (BList ["main"; "feature-x"]%string) w).2
  = [EvLog INFO "Pushing specific branch: main";
     EvRun ["git"; "fetch"; "origin"; "main"]%string;
     EvRun ["git"; "push"; "https://github.com/contoso-gh/billing-gh.git";
            "refs/remotes/origin/main:refs/heads/main"]%string;
     EvLog INFO "Pushing specific branch: feature-x";
     EvRun ["git"; "fetch"; "origin"; "feature-x"]%string;
     EvRun ["git"; "push"; "https://github.com/contoso-gh/billing-gh.git";
            "refs/remotes/origin/feature-x:refs/heads/feature-x"]%string].
Proof.
  intros w url.
  apply (branch_list_push_order "" url ["main"; "feature-x"]%string w).
  intros h c. reflexivity.
Defined.

(** ** Paths *)

Lemma string_app_String (c : ascii) (a b : string) :
  String c a +:+ b = String c (a +:+ b).
Proof. reflexivity. Qed.

Lemma string_app_nil_r (s : string) : s +:+ "" = s.
Proof. induction s as [|c s IH]; [done|]. by rewrite string_app_String, IH. Qed.

Lemma string_app_assoc (a b c : string) : (a +:+ b) +:+ c = a +:+ (b +:+ c).
Proof. induction a as [|x a IH]; [done|]. by rewrite !string_app_String, IH. Qed.

Lemma string_app_cons (c : ascii) (s : string) : String c s = String c "" +:+ s.
Proof. done. Qed.

Lemma parents_from_prefix (a pre b : string) :
  pre +:+ a ∈ parents_from pre (a +:+ String "/" b).
Proof.
  revert pre. induction a as [|c a IH]; intros pre.
  - rewrite string_app_nil_r. change ("" +:+ String "/" b) with (String "/" b).
    cbn. set_solver.
  - rewrite string_app_String. cbn [parents_from]. apply elem_of_app. right.
    rewrite (string_app_cons c a), <- string_app_assoc. apply IH.
Qed.

Lemma ends_with_sep_app (a b : string) :
  b ≠ ""%string → ends_with_sep (a +:+ b) = ends_with_sep b.
Proof.
  intros Hb. induction a as [|c a IH]; [done|].
  rewrite string_app_String. cbn [ends_with_sep]. rewrite IH.
  destruct (a +:+ b) eqn:E; [|done].
  destruct a; [by subst|done].
Qed.

Lemma base_dir_shape (w : world) :
  base_dir_of w ≠ ""%string ∧ ends_with_sep (base_dir_of w) = false.
Proof.
  unfold base_dir_of, path_join.
  change (starts_with_sep "tfs_repo_migration") with false. cbn iota.
  destruct (_ || _).
  - split; [by destruct (cwd w)|]. by rewrite ends_with_sep_app.
  - split; [by destruct (cwd w)|]. by rewrite ends_with_sep_app.
Qed.

Lemma base_dir_parent (w : world) (child : string) :
  starts_with_sep child = false →
  base_dir_of w ∈ parents (path_join (base_dir_of w) child).
Proof.
  intros Hc. destruct (base_dir_shape w) as [Hne Hend].
  unfold path_join. rewrite Hc, Hend, orb_false_r.
  rewrite bool_decide_eq_false_2 by done.
  unfold parents. apply (parents_from_prefix (base_dir_of w) "" child).
Qed.

(** ** The orchestrator, stage by stage *)

Global Arguments path_join : simpl never.
Global Arguments quote : simpl never.
Global Arguments b64encode : simpl never.
Global Arguments repr_list : simpl never.
Global Arguments repr_str : simpl never.
Global Arguments parents : simpl never.
Global Arguments get_auth_header : simpl never.
Global Arguments get_github_auth_header : simpl never.

Section Stages.
Context (config : Config) (w : world).

Lemma setup_world_evolves :
  evolves w (setup_world config w) (preamble_events config w).
Proof.
  unfold setup_world, bind, makedirs, setup_logging, logging, act. cbn.
  destruct (root_handlers w) eqn:Hh; split; cbn; rewrite ?Hh; try done.
  all: try (by rewrite <- !app_assoc).
  all: set_solver.
Qed.

Lemma listing_answer_eq :
  http_get (setup_world config w) (trace (setup_world config w))
    (listing_url config) (get_auth_header (azure_devops_pat_token config))
  = listing_answer config w.
Proof.
  unfold listing_answer.
  by rewrite (ev_http _ _ _ setup_world_evolves), (ev_trace _ _ _ setup_world_evolves).
Qed.

Lemma listed_world_evolves :
  evolves w (listed_world config w) (listing_events config w).
Proof.
  unfold listed_world, listing_events.
  eapply evolves_trans; [apply setup_world_evolves|]. by apply evolves_emit.
Qed.

Lemma loaded_world_eq :
  loaded_world config w =
    match checkpoint_file w with
    | Some doc => listed_world config w
    | None => set_checkpoint_file (Some ∅) (emit (EvWrite None ∅) (listed_world config w))
    end.
Proof.
  unfold loaded_world. rewrite load_checkpoint_eq.
  rewrite (ev_file _ _ _ listed_world_evolves).
  change (last_write (listing_events config w) (checkpoint_file w))
    with (checkpoint_file w).
  by destruct (checkpoint_file w).
Qed.

Lemma loaded_world_evolves :
  evolves w (loaded_world config w) (precheck_events config w).
Proof.
  unfold precheck_events, load_events. rewrite loaded_world_eq.
  destruct (checkpoint_file w).
  - rewrite app_nil_r. apply listed_world_evolves.
  - eapply evolves_trans; [apply listed_world_evolves|]. apply evolves_write.
Qed.

Lemma loaded_world_file :
  checkpoint_file (loaded_world config w) = Some (default ∅ (checkpoint_file w)).
Proof.
  rewrite loaded_world_eq. destruct (checkpoint_file w) as [doc|] eqn:Hf; [|done].
  rewrite (ev_file _ _ _ listed_world_evolves).
  change (last_write (listing_events config w) (checkpoint_file w))
    with (checkpoint_file w).
  by rewrite Hf.
Qed.

Lemma destination_answer_eq :
  http_get (loaded_world config w) (trace (loaded_world config w))
    (github_api_url config) (get_github_auth_header (github_token config))
  = destination_answer config w.
Proof.
  unfold destination_answer.
  by rewrite (ev_http _ _ _ loaded_world_evolves), (ev_trace _ _ _ loaded_world_evolves).
Qed.

Lemma find_listed (repositories : list repository) :
  tfs_source_repo config ∈ map name repositories →
  ∃ repo, List.find (λ r, bool_decide (name r = tfs_source_repo config)) repositories
          = Some repo
          ∧ name repo = tfs_source_repo config.
Proof.
  induction repositories as [|r l IH]; cbn.
  - intros H. by apply elem_of_nil in H.
  - intros H. case_bool_decide as Hr; [by exists r|].
    apply elem_of_cons in H as [H|H]; [done|]. by apply IH.
Qed.

Lemma base_dir_exists : base_dir_of w ∈ dirs (setup_world config w).
Proof.
  pose proof (base_dir_parent w "tfs_git_repo" eq_refl) as H.
  unfold setup_world, bind, makedirs, setup_logging, logging, act. cbn.
  fold (repo_base_dir_of w) in H.
  destruct (root_handlers w); cbn; set_solver.
Qed.

(** Lines 117-127 always succeed and lead to [setup_world]. *)
Lemma run_prefix {B} (K : string → M B) :
  (makedirs (path_join (path_join (cwd w) "tfs_repo_migration") "tfs_git_repo") ;;
   makedirs (path_join (path_join (cwd w) "tfs_repo_migration") "tfs_git_migration_log") ;;
   setup_logging (path_join (path_join (cwd w) "tfs_repo_migration")
                    "tfs_git_migration_log") ;;
   bind (create_directory_structure
           (path_join (path_join (cwd w) "tfs_repo_migration") "tfs_git_repo")
           (azure_devops_organization config) (azure_devops_project config)) K) w
  = K (project_dir_of config w) (setup_world config w).
Proof. reflexivity. Qed.

(** The whole run, case by case. *)
Lemma run_eq (only_clone_repos : bool) :
  clone_and_push_repositories config only_clone_repos w =
    match listing_answer config w with
    | ConnectionFailed msg => (Exc (RequestException msg), listed_world config w)
    | Responded r =>
        if negb (bool_decide (status_code r = 200)) then
          (Exc (Exception ("Failed to fetch repositories: " +:+ text r)),
           listed_world config w)
        else if negb (bool_decide
                  (tfs_source_repo config ∈ map name (default [] (json_value r)))) then
          (Exc (Exception ("Repository " +:+ tfs_source_repo config
                           +:+ " not found in the given TFS collection.")),
           listed_world config w)
        else if migrated config (checkpoint_file w) then
          (Val tt, emit (skip_line config) (loaded_world config w))
        else
          match destination_answer config w with
          | ConnectionFailed msg => (Exc (RequestException msg), requested_world config w)
          | Responded r2 =>
              if bool_decide (status_code r2 = 200)
              then block_of config only_clone_repos w (entry_world config w)
              else (Val tt, emit (missing_line config)
                              (checked_world config (status_code r2) w))
          end
    end.
Proof.
  rewrite <- listing_answer_eq, <- destination_answer_eq.
  unfold clone_and_push_repositories. cbn zeta.
  unfold bind at 1. unfold getcwd at 1. cbn beta iota.
  match goal with
  | |- bind ?a (λ _, bind ?b (λ _, bind ?c (λ _, bind ?d ?K))) w = _ =>
      rewrite (run_prefix K)
  end.
  cbn beta. unfold bind at 1, requests_get at 1.
  fold (listing_url config). fold (listed_world config w).
  destruct (http_get (setup_world config w) _ _ _) as [r|msg]; [|done].
  destruct (negb (bool_decide (status_code r = 200))); [done|].
  case_bool_decide as Hin; cbn [negb]; [|done].
  destruct (find_listed _ Hin) as (repo & -> & Hname). rewrite Hname.
  unfold bind at 1. fold (loaded_world config w).
  assert (load_checkpoint (listed_world config w)
          = (Val (default ∅ (checkpoint_file w)), loaded_world config w)) as ->.
  { unfold loaded_world. rewrite load_checkpoint_eq.
    rewrite (ev_file _ _ _ listed_world_evolves).
    change (last_write (listing_events config w) (checkpoint_file w))
      with (checkpoint_file w).
    by destruct (checkpoint_file w). }
  fold (migrated config (checkpoint_file w)).
  destruct (migrated config (checkpoint_file w)); [done|].
  unfold bind at 1, check_github_repo_exists at 1.
  fold (github_api_url config).
  unfold bind at 1, requests_get at 1. fold (requested_world config w).
  destruct (http_get (loaded_world config w) _ _ _) as [r2|msg]; [|done].
  unfold bind at 1, act at 1. fold (checked_world config (status_code r2) w).
  unfold ret at 1.
  case_bool_decide as H200; cbn [negb]; [|reflexivity].
  rewrite H200.
  unfold block_of, entry_world, repo_dir_of, base_dir_of, azure_repo_url_of.
  reflexivity.
Qed.
End Stages.

(** From here on the worlds of a run are used through the lemmas above. *)
Global Opaque setup_world loaded_world.

(** ** The clone/push block *)

Lemma only_quiet (allowed : list string → bool) (evs : list event) :
  Forall (only allowed) evs →
  Forall (λ e, ∀ p, e ≠ EvChdir p) evs
  ∧ Forall (λ e, ∀ i doc, e ≠ EvWrite i doc) evs
  ∧ Forall (λ e, ∀ p, e ≠ EvOpenLog p) evs.
Proof.
  intros H. split_and!; (eapply Forall_impl; [exact H|]); by intros [].
Qed.

Lemma push_phase_quiet (repo_dir : string) (evs : list event) :
  push_phase repo_dir evs →
  Forall (λ e, ∀ i doc, e ≠ EvWrite i doc) evs
  ∧ Forall (λ e, ∀ p, e ≠ EvOpenLog p) evs.
Proof.
  intros [->|(rest & -> & H)]; [done|].
  destruct (only_quiet _ _ H) as (_ & Hw & Ho).
  split; by constructor.
Qed.


Section Block.
Context (config : Config) (specific_branches : branch_value).
Context (repo_name git_repo azure_repo_url repo_dir : string).

Lemma clone_step_eq (w1 : world) :
  clone_step specific_branches repo_name azure_repo_url repo_dir w1 =
    if bool_decide (repo_dir ∈ dirs w1) then (Val tt, w1)
    else
      retry_subprocess
        (chosen_clone_command specific_branches azure_repo_url repo_dir) default_retries
        (emit (EvLog INFO (if is_all specific_branches
                           then "Cloning all branches for " +:+ repo_name +:+ "..."
                           else "Cloning default branch for " +:+ repo_name +:+ "..."))
           w1).
Proof.
  unfold clone_step, chosen_clone_command, bind, path_exists.
  case_bool_decide; [reflexivity|]. cbn [negb].
  by destruct (is_all specific_branches).
Qed.

Lemma clone_step_shape (w1 : world) :
  let cmd := chosen_clone_command specific_branches azure_repo_url repo_dir in
  let run := clone_step specific_branches repo_name azure_repo_url repo_dir w1 in
  ∃ i evs,
    evolves w1 run.2 evs
    ∧ commands evs = replicate i cmd
    ∧ (if bool_decide (repo_dir ∈ dirs w1)
       then run = (Val tt, w1) ∧ evs = []
       else (1 ≤ i ≤ 3)%nat)
    ∧ Forall (only (λ c, bool_decide (c = cmd))) evs.
Proof.
  cbn zeta. rewrite clone_step_eq.
  case_bool_decide as Hex.
  - exists 0%nat, []. split_and!; try done. apply evolves_refl.
  - set (w2 := emit _ w1).
    destruct (retry_subprocess_shape
                (chosen_clone_command specific_branches azure_repo_url repo_dir) w2)
      as (i & evs & Hev & Hc & Hi & Hall).
    exists i, ([EvLog INFO (if is_all specific_branches
                            then "Cloning all branches for " +:+ repo_name +:+ "..."
                            else "Cloning default branch for " +:+ repo_name +:+ "...")]
                 ++ evs).
    refine (conj _ (conj _ (conj Hi _))).
    + eapply evolves_trans; [|exact Hev]. by apply evolves_emit.
    + done.
    + by constructor.
Qed.

Lemma push_step_shape (w1 : world) :
  ∃ evs,
    evolves w1 (push_step config specific_branches repo_name git_repo repo_dir w1).2 evs
    ∧ push_phase repo_dir evs.
Proof.
  unfold push_step. unfold bind at 1, chdir at 1.
  case_bool_decide as Hex.
  - set (w2 := set_cwd repo_dir _).
    assert (evolves w1 w2 [EvChdir repo_dir]) as Hcd by apply evolves_chdir.
    set (url := "https://github.com/" +:+ _).
    assert (∃ rest, evolves w2
              ((if is_all specific_branches
               then logging INFO ("Pushing all branches and tags for " +:+ repo_name +:+ "...") ;;
                    retry_subprocess (mirror_push_command url) default_retries
               else logging INFO ("Pushing selected branches: "
                                  +:+ str_branch_value specific_branches
                                  +:+ " for " +:+ repo_name) ;;
                    migrate_specific_branches repo_dir url specific_branches) w2).2 rest
            ∧ Forall (only (λ c, negb (is_clone c))) rest) as (rest & Hev & Hall).
    { destruct (is_all specific_branches).
      - unfold bind, logging, act. set (w3 := emit _ w2).
        destruct (rs_retry_subprocess (λ c, negb (is_clone c))
                    (mirror_push_command url) default_retries eq_refl w3)
          as (evs & Hev & Hall).
        destruct (retry_subprocess _ _ w3) as [r w4]. cbn [snd] in *.
        eexists. split.
        + eapply evolves_trans; [|exact Hev]. by apply evolves_emit.
        + by constructor.
      - unfold bind, logging, act, migrate_specific_branches. set (w3 := emit _ w2).
        destruct (migrate_branches_grouped url (py_iter specific_branches) w3)
          as (ns & evs & Hev & _ & _ & _ & _ & _ & Hall).
        destruct (migrate_branches _ _ w3) as [r w4]. cbn [snd] in *.
        eexists. split.
        + eapply evolves_trans; [|exact Hev]. by apply evolves_emit.
        + by constructor. }
    exists (EvChdir repo_dir :: rest). split.
    + by apply (evolves_trans _ w2 _ [EvChdir repo_dir] rest).
    + right. by exists rest.
  - exists []. split; [apply evolves_refl|by left].
Qed.

(** The [try] suite: the clone phase, then the push phase. *)
Lemma try_suite_shape (only_clone_repos : bool) (w1 : world) :
  let cmd := chosen_clone_command specific_branches azure_repo_url repo_dir in
  let run := try_suite config only_clone_repos specific_branches
               repo_name git_repo azure_repo_url repo_dir w1 in
  ∃ i evs_c evs_p,
    evolves w1 run.2 (evs_c ++ evs_p)
    ∧ commands evs_c = replicate i cmd
    ∧ Forall (only (λ c, bool_decide (c = cmd))) evs_c
    ∧ (if bool_decide (repo_dir ∈ dirs w1) then evs_c = [] else (1 ≤ i ≤ 3)%nat)
    ∧ push_phase repo_dir evs_p
    ∧ (only_clone_repos = true → evs_p = []).
Proof.
  cbn zeta. unfold try_suite. unfold bind at 1.
  destruct (clone_step_shape w1) as (i & evs_c & Hev & Hc & Hex & Hall).
  cbn zeta in *.
  assert (if bool_decide (repo_dir ∈ dirs w1) then evs_c = [] else (1 ≤ i ≤ 3)%nat) as Hex'.
  { destruct (bool_decide (repo_dir ∈ dirs w1)); [by destruct Hex|done]. }
  destruct (clone_step _ _ _ _ w1) as [[[]|e] w2]; cbn [snd] in *.
  - destruct only_clone_repos; cbn [negb].
    + exists i, evs_c, []. rewrite app_nil_r. split_and!; try done. by left.
    + destruct (push_step_shape w2) as (evs_p & Hev2 & Hp).
      exists i, evs_c, evs_p. split_and!; try done. by eapply evolves_trans.
  - exists i, evs_c, []. rewrite app_nil_r. split_and!; try done. by left.
Qed.

(** The [finally]: the checkpoint is written and the working directory
    set to [base_dir]. *)
Lemma finally_shape (collection_name azure_project base_dir : string)
    (wh : world) (doc : ledger) :
  checkpoint_file wh = Some doc →
  ledger_contains doc collection_name azure_project repo_name = false →
  base_dir ∈ dirs wh →
  ∃ w', (save_checkpoint collection_name azure_project repo_name ;; chdir base_dir) wh
        = (Val tt, w')
        ∧ evolves wh w'
            [EvWrite (Some 4) (record doc collection_name azure_project repo_name);
             EvLog INFO ("Checkpoint updated: " +:+ repo_name +:+ " saved under "
                         +:+ collection_name +:+ "/" +:+ azure_project +:+ ".");
             EvChdir base_dir].
Proof.
  intros Hfile Hnew Hbase.
  unfold bind. rewrite save_checkpoint_eq. cbn zeta. rewrite Hfile.
  cbn [default from_option id]. rewrite Hnew.
  set (w1 := emit (EvWrite (Some 4) _) wh).
  set (w2 := set_checkpoint_file _ w1).
  set (w3 := emit (EvLog INFO _) w2).
  assert (base_dir ∈ dirs w3) as Hbase3 by exact Hbase.
  unfold chdir. rewrite (bool_decide_eq_true_2 (base_dir ∈ dirs w3) Hbase3).
  eexists. split; [reflexivity|].
  apply (evolves_trans _ w2 _ [_] [_; _]); [apply evolves_write|].
  apply (evolves_trans _ w3 _ [_] [_]); [by apply evolves_emit|apply evolves_chdir].
Qed.

(** The whole block: suite, handler, [finally]. *)
Lemma block_shape (only_clone_repos : bool)
    (collection_name azure_project base_dir : string) (w1 : world) (doc : ledger) :
  checkpoint_file w1 = Some doc →
  ledger_contains doc collection_name azure_project repo_name = false →
  base_dir ∈ dirs w1 →
  let cmd := chosen_clone_command specific_branches azure_repo_url repo_dir in
  let suite := try_suite config only_clone_repos specific_branches
                 repo_name git_repo azure_repo_url repo_dir w1 in
  ∃ w' i evs_c evs_p,
    clone_push_block config only_clone_repos specific_branches
      collection_name azure_project repo_name git_repo azure_repo_url repo_dir base_dir w1
    = (Val tt, w')
    ∧ evolves w1 w'
        (evs_c ++ evs_p
           ++ match suite.1 with
              | Val _ => []
              | Exc e => [EvLog ERROR ("An error occurred while processing " +:+ repo_name
                                       +:+ ": " +:+ str_exn e)]
              end
           ++ [EvWrite (Some 4) (record doc collection_name azure_project repo_name);
               EvLog INFO ("Checkpoint updated: " +:+ repo_name +:+ " saved under "
                           +:+ collection_name +:+ "/" +:+ azure_project +:+ ".");
               EvChdir base_dir])
    ∧ evolves w1 suite.2 (evs_c ++ evs_p)
    ∧ commands evs_c = replicate i cmd
    ∧ Forall (only (λ c, bool_decide (c = cmd))) evs_c
    ∧ (if bool_decide (repo_dir ∈ dirs w1) then evs_c = [] else (1 ≤ i ≤ 3)%nat)
    ∧ push_phase repo_dir evs_p
    ∧ (only_clone_repos = true → evs_p = []).
Proof.
  intros Hfile Hnew Hbase cmd suite.
  destruct (try_suite_shape only_clone_repos w1)
    as (i & evs_c & evs_p & Hev & Hc & Hall & Hex & Hp & Hco).
  cbn zeta in Hev. fold suite in Hev.
  unfold clone_push_block, try_finally, try_except. fold suite.
  destruct suite as [r ws]. cbn [fst snd] in *.
  assert (checkpoint_file ws = Some doc) as Hfile'.
  { rewrite (ev_file _ _ _ Hev), Hfile. apply last_write_quiet.
    destruct (only_quiet _ _ Hall) as (_ & Hw & _).
    destruct (push_phase_quiet _ _ Hp) as (Hw' & _).
    by apply Forall_app. }
  assert (base_dir ∈ dirs ws) as Hbase' by apply (ev_dirs _ _ _ Hev), Hbase.
  destruct r as [[]|e].
  - destruct (finally_shape collection_name azure_project base_dir ws doc Hfile' Hnew Hbase')
      as (w' & -> & Hf).
    exists w', i, evs_c, evs_p.
    refine (conj eq_refl (conj _ (conj Hev (conj Hc (conj Hall (conj Hex (conj Hp Hco))))))).
    rewrite (app_assoc evs_c). cbn [app].
    eapply evolves_trans; [exact Hev|exact Hf].
  - unfold logging at 1, act at 1.
    set (wh := emit (EvLog ERROR _) ws).
    assert (evolves ws wh [EvLog ERROR ("An error occurred while processing " +:+ repo_name
                                        +:+ ": " +:+ str_exn e)]) as Hh
      by by apply evolves_emit.
    destruct (finally_shape collection_name azure_project base_dir wh doc)
      as (w' & -> & Hf); [exact Hfile'|exact Hnew|exact Hbase'|].
    exists w', i, evs_c, evs_p.
    refine (conj eq_refl (conj _ (conj Hev (conj Hc (conj Hall (conj Hex (conj Hp Hco))))))).
    rewrite (app_assoc evs_c).
    eapply evolves_trans; [exact Hev|].
    eapply evolves_trans; [exact Hh|exact Hf].
Qed.
End Block.

Section Run.
Context (config : Config) (only_clone_repos : bool) (w : world).

Lemma entry_world_evolves :
  evolves w (entry_world config w) (entry_events config w).
Proof.
  unfold entry_world, checked_world, requested_world, entry_events.
  eapply evolves_trans; [apply loaded_world_evolves|].
  apply (evolves_trans _ (requested_world config w) _ [_] [_]); by apply evolves_emit.
Qed.

Lemma base_dir_at_entry : base_dir_of w ∈ dirs (entry_world config w).
Proof.
  assert (evolves (setup_world config w) (entry_world config w)
            ([EvGet (listing_url config) (get_auth_header (azure_devops_pat_token config))]
               ++ load_events w
               ++ [EvGet (github_api_url config)
                     (get_github_auth_header (github_token config)); EvPrint 200])) as Hev.
  { unfold entry_world, checked_world, requested_world.
    apply (evolves_trans _ (listed_world config w)); [by apply evolves_emit|].
    apply (evolves_trans _ (loaded_world config w)).
    - rewrite loaded_world_eq. unfold load_events.
      destruct (checkpoint_file w); [apply evolves_refl|apply evolves_write].
    - apply (evolves_trans _ (requested_world config w) _ [_] [_]);
        by apply evolves_emit. }
  apply (ev_dirs _ _ _ Hev), base_dir_exists.
Qed.

Lemma entry_world_file :
  checkpoint_file (entry_world config w) = Some (default ∅ (checkpoint_file w)).
Proof.
  unfold entry_world, checked_world, requested_world.
  rewrite !checkpoint_file_emit. apply loaded_world_file.
Qed.

Lemma reaches_block_run :
  reaches_block config w = true →
  clone_and_push_repositories config only_clone_repos w
  = block_of config only_clone_repos w (entry_world config w).
Proof.
  unfold reaches_block, reaches_check, listed, destination_status.
  rewrite run_eq.
  destruct (listing_answer config w) as [r|msg]; [|done].
  destruct (bool_decide (status_code r = 200)); [|done].
  destruct (bool_decide (tfs_source_repo config ∈ _)); [|done].
  destruct (migrated config (checkpoint_file w)); [done|].
  destruct (destination_answer config w) as [r2|msg]; [|done].
  cbn. intros H. apply bool_decide_eq_true in H. injection H as ->. done.
Qed.

(** A run that gets into the [try]: the suite, the handler, the
    [finally]. *)
Lemma block_run :
  reaches_block config w = true →
  let cmd := chosen_clone_command (config_get_specific_branches config)
               (azure_repo_url_of config) (repo_dir_of config w) in
  let suite := suite_of config only_clone_repos w (entry_world config w) in
  ∃ w' i evs_c evs_p,
    clone_and_push_repositories config only_clone_repos w = (Val tt, w')
    ∧ evolves w w' (entry_events config w ++ evs_c ++ evs_p
                      ++ handler_events config suite.1 ++ final_events config w)
    ∧ evolves (entry_world config w) suite.2 (evs_c ++ evs_p)
    ∧ commands evs_c = replicate i cmd
    ∧ Forall (only (λ c, bool_decide (c = cmd))) evs_c
    ∧ (if bool_decide (repo_dir_of config w ∈ dirs (entry_world config w))
       then evs_c = [] else (1 ≤ i ≤ 3)%nat)
    ∧ push_phase (repo_dir_of config w) evs_p
    ∧ (only_clone_repos = true → evs_p = []).
Proof.
  intros Hreach cmd suite. rewrite (reaches_block_run Hreach).
  assert (migrated config (checkpoint_file w) = false) as Hnew.
  { unfold reaches_block, reaches_check in Hreach.
    by destruct (listed config w), (migrated config (checkpoint_file w)). }
  destruct (block_shape config (config_get_specific_branches config)
              (tfs_source_repo config) (github_target_repo config)
              (azure_repo_url_of config) (repo_dir_of config w)
              only_clone_repos
              (azure_devops_organization config) (azure_devops_project config)
              (base_dir_of w) (entry_world config w)
              (default ∅ (checkpoint_file w))
              entry_world_file Hnew base_dir_at_entry)
    as (w' & i & evs_c & evs_p & Hrun & Hev & Hs & Hc & Hall & Hex & Hp & Hco).
  exists w', i, evs_c, evs_p.
  refine (conj Hrun (conj _ (conj Hs (conj Hc (conj Hall (conj Hex (conj Hp Hco))))))).
  eapply evolves_trans; [apply entry_world_evolves|exact Hev].
Qed.
End Run.

(** ** Early exits *)

Lemma migrated_has_file (config : Config) (file : option ledger) :
  migrated config file = true → ∃ doc, file = Some doc.
Proof.
  destruct file as [doc|]; [by exists doc|].
  unfold migrated. cbn. by rewrite migrated_missing_file.
Qed.

(** A run whose ledger already has the triple. *)
Lemma skip_run (config : Config) (only_clone_repos : bool) (w : world) :
  migrated config (checkpoint_file w) = true →
  let run := clone_and_push_repositories config only_clone_repos w in
  evolves w run.2
    (listing_events config w ++ if listed config w then [skip_line config] else [])
  ∧ (if listed config w then run.1 = Val tt else ∃ e, run.1 = Exc e).
Proof.
  intros Hm. cbn zeta. rewrite run_eq. unfold listed.
  pose proof (listed_world_evolves config w) as Hl.
  destruct (listing_answer config w) as [r|msg].
  - destruct (bool_decide (status_code r = 200)); cbn [negb andb].
    + destruct (bool_decide (tfs_source_repo config ∈ _)); cbn [negb].
      * rewrite Hm. cbn [fst snd]. split; [|done].
        eapply evolves_trans; [|by apply evolves_emit].
        rewrite loaded_world_eq.
        destruct (migrated_has_file _ _ Hm) as [doc ->]. done.
      * cbn [fst snd]. rewrite app_nil_r. split; [done|by eexists].
    + cbn [fst snd]. rewrite app_nil_r. split; [done|by eexists].
  - cbn [fst snd]. rewrite app_nil_r. split; [done|by eexists].
Qed.

Lemma skip_run_quiet (config : Config) (only_clone_repos : bool) (w : world) :
  migrated config (checkpoint_file w) = true →
  let run := clone_and_push_repositories config only_clone_repos w in
  let evs := new_events w run.2 in
  commands evs = [] ∧ writes evs = []
  ∧ gets evs = [listing_url config]
  ∧ checkpoint_file run.2 = checkpoint_file w.
Proof.
  intros Hm. destruct (skip_run config only_clone_repos w Hm) as [Hev _].
  cbn zeta in *. rewrite (evolves_new_events _ _ _ Hev), (ev_file _ _ _ Hev).
  by destruct (listed config w).
Qed.

(** C2: when the ledger already holds the configured (collection,
    project, repo) before the run, the run invokes no external command at
    all (so no clone and no push), writes nothing to the checkpoint file,
    and leaves the persisted ledger as it was.  Its only request is the
    listing one: the existence check at the destination is not made.  Its
    trace is the set-up, the listing request and, when the listing
    succeeds, the line that the repository is skipped, after which it
    returns; when the listing fails it raises before that. *)
Theorem skip_invariant (config : Config) (only_clone_repos : bool) (w : world)
    (doc : ledger) :
  checkpoint_file w = Some doc →
  ledger_contains doc (azure_devops_organization config)
    (azure_devops_project config) (tfs_source_repo config) = true →
  let run := clone_and_push_repositories config only_clone_repos w in
  let evs := new_events w run.2 in
  commands evs = []
  ∧ writes evs = []
  ∧ checkpoint_file run.2 = Some doc
  ∧ gets evs = [listing_url config]
  ∧ evs = listing_events config w ++ (if listed config w then [skip_line config] else [])
  ∧ (if listed config w then run.1 = Val tt else ∃ e, run.1 = Exc e).
Proof.
  intros Hf Hin run evs.
  assert (migrated config (checkpoint_file w) = true) as Hm
    by (unfold migrated; by rewrite Hf).
  destruct (skip_run_quiet config only_clone_repos w Hm) as (Hc & Hw & Hg & Hfile).
  destruct (skip_run config only_clone_repos w Hm) as [Hev Hr].
  subst evs run. cbn zeta in *. split_and!; try done.
  - by rewrite Hfile.
  - by rewrite (evolves_new_events _ _ _ Hev).
Qed.

(** The repository "billing" is in the ledger; the run stops at the skip
    check. *)
Lemma skip_invariant_witness :
  let doc : ledger := {[ "contoso"%string := {[ "payments"%string := ["billing"%string] ]} ]} in
  let w := sample_world (Some doc) 200 (run_exit 0) in
  commands (new_events w (clone_and_push_repositories sample_config false w).2) = [].
Proof.
  intros doc w.
  assert (checkpoint_file w = Some doc) as Hfile by reflexivity.
  assert (ledger_contains doc (azure_devops_organization sample_config)
            (azure_devops_project sample_config) (tfs_source_repo sample_config) = true)
    as Hin by (vm_compute; reflexivity).
  exact (proj1 (skip_invariant sample_config false w doc Hfile Hin)).
Defined.

(** A run whose destination repository is not there. *)
Lemma missing_run (config : Config) (only_clone_repos : bool) (w : world) (code : Z) :
  reaches_check config w = true →
  destination_status config w = Some code →
  code ≠ 200 →
  clone_and_push_repositories config only_clone_repos w
  = (Val tt, emit (missing_line config) (checked_world config code w)).
Proof.
  intros Hreach Hst Hne.
  unfold reaches_check, listed in Hreach. unfold destination_status in Hst.
  rewrite run_eq.
  destruct (listing_answer config w) as [r|msg]; [|cbn in Hreach; discriminate Hreach].
  destruct (bool_decide (status_code r = 200)); [|cbn in Hreach; discriminate Hreach].
  destruct (bool_decide (tfs_source_repo config ∈ _)); [|cbn in Hreach; discriminate Hreach].
  destruct (migrated config (checkpoint_file w)); [cbn in Hreach; discriminate Hreach|].
  destruct (destination_answer config w) as [r2|msg]; [|discriminate Hst].
  injection Hst as Hst. subst code. cbn [negb].
  rewrite (bool_decide_eq_false_2 (status_code r2 = 200) Hne). reflexivity.
Qed.

Lemma missing_world_evolves (config : Config) (w : world) (code : Z) :
  evolves w (emit (missing_line config) (checked_world config code w))
    (precheck_events config w
       ++ [EvGet (github_api_url config) (get_github_auth_header (github_token config));
           EvPrint code; missing_line config]).
Proof.
  eapply evolves_trans; [apply loaded_world_evolves|].
  apply (evolves_trans _ (requested_world config w) _ [_] [_; _]);
    [by apply evolves_emit|].
  apply (evolves_trans _ (checked_world config code w) _ [_] [_]);
    by apply evolves_emit.
Qed.

Lemma check_github_repo_exists_eq (config : Config) (w : world) :
  check_github_repo_exists (github_organization config) (github_target_repo config)
    (github_token config) (loaded_world config w)
  = match destination_answer config w with
    | Responded r =>
        (Val (bool_decide (status_code r = 200)), checked_world config (status_code r) w)
    | ConnectionFailed msg => (Exc (RequestException msg), requested_world config w)
    end.
Proof.
  rewrite <- destination_answer_eq.
  unfold check_github_repo_exists. fold (github_api_url config).
  unfold bind at 1, requests_get at 1. fold (requested_world config w).
  by destruct (http_get (loaded_world config w) _ _ _).
Qed.

(** C3, as amended: when the existence check at GitHub answers with a
    status other than 200, [check_github_repo_exists] returns [False] (it
    does not raise), the orchestrator logs the error and returns, no
    external command is invoked (no clone, no push), and no checkpoint is
    recorded: the ledger mapping is as it was and does not hold the
    repository.  The only write to the checkpoint file that can occur is
    the one of [load_checkpoint], which creates the file with the empty
    document when there was none. *)
Theorem destination_missing (config : Config) (only_clone_repos : bool) (w : world)
    (code : Z) :
  reaches_check config w = true →
  destination_status config w = Some code →
  code ≠ 200 →
  let run := clone_and_push_repositories config only_clone_repos w in
  let evs := new_events w run.2 in
  (check_github_repo_exists (github_organization config) (github_target_repo config)
     (github_token config) (loaded_world config w)).1 = Val false
  ∧ run.1 = Val tt
  ∧ evs = precheck_events config w
            ++ [EvGet (github_api_url config) (get_github_auth_header (github_token config));
                EvPrint code; missing_line config]
  ∧ commands evs = []
  ∧ writes evs = writes (load_events w)
  ∧ (is_Some (checkpoint_file w) → writes evs = [] ∧ checkpoint_file run.2 = checkpoint_file w)
  ∧ default ∅ (checkpoint_file run.2) = default ∅ (checkpoint_file w)
  ∧ migrated config (checkpoint_file run.2) = false.
Proof.
  intros Hreach Hst Hne run evs.
  pose proof (missing_run config only_clone_repos w code Hreach Hst Hne) as Hrun.
  pose proof (missing_world_evolves config w code) as Hev.
  assert (migrated config (checkpoint_file w) = false) as Hnew.
  { unfold reaches_check in Hreach.
    by destruct (listed config w), (migrated config (checkpoint_file w)). }
  remember (emit (missing_line config) (checked_world config code w)) as W eqn:HW.
  clear HW.
  assert (checkpoint_file W = Some (default ∅ (checkpoint_file w))) as Hfile.
  { rewrite (ev_file _ _ _ Hev). unfold precheck_events, load_events.
    by destruct (checkpoint_file w). }
  subst evs run. rewrite Hrun. cbn [fst snd].
  rewrite (evolves_new_events _ _ _ Hev).
  split_and!.
  - rewrite check_github_repo_exists_eq. unfold destination_status in Hst.
    destruct (destination_answer config w) as [r|msg]; [|discriminate Hst].
    injection Hst as Hst. subst code. cbn [fst].
    by rewrite (bool_decide_eq_false_2 (status_code r = 200) Hne).
  - reflexivity.
  - reflexivity.
  - unfold precheck_events, load_events. by destruct (checkpoint_file w).
  - unfold precheck_events, load_events. by destruct (checkpoint_file w).
  - intros [doc Hdoc]. rewrite Hfile, Hdoc. split; [|reflexivity].
    unfold precheck_events, load_events. by rewrite Hdoc.
  - by rewrite Hfile.
  - rewrite Hfile. exact Hnew.
Qed.

(** GitHub answers 404 and the ledger exists: nothing is run, nothing is
    written. *)
Lemma destination_missing_witness :
  let w := sample_world (Some ∅) 404 (run_exit 0) in
  let evs := new_events w (clone_and_push_repositories sample_config false w).2 in
  commands evs = [] ∧ writes evs = writes (load_events w).
Proof.
  intros w evs.
  pose proof (destination_missing sample_config false w 404) as H.
  destruct H as (_ & _ & _ & Hc & Hw & _); [reflexivity|reflexivity|lia|].
  split; [exact Hc|exact Hw].
Defined.

(** C3, as stated, fails: with no checkpoint file yet and GitHub answering
    404, the run does write to the ledger file once; [load_checkpoint]
    creates it with the empty document before the existence check is
    made. *)
Lemma destination_missing_creates_ledger :
  let w := sample_world None 404 (run_exit 0) in
  let run := clone_and_push_repositories sample_config false w in
  destination_status sample_config w = Some 404
  ∧ run.1 = Val tt
  ∧ checkpoint_file w = None
  ∧ writes (new_events w run.2) = [∅]
  ∧ writes (new_events w run.2) ≠ []
  ∧ checkpoint_file run.2 = Some ∅.
Proof. vm_compute. split_and!; try reflexivity. discriminate. Qed.

(** ** What a run that gets into the [try] leaves behind *)

Lemma last_write_app (evs1 evs2 : list event) (d : option ledger) :
  last_write (evs1 ++ evs2) d = last_write evs2 (last_write evs1 d).
Proof. apply foldl_app. Qed.

Lemma last_chdir_app (evs1 evs2 : list event) (d : string) :
  last_chdir (evs1 ++ evs2) d = last_chdir evs2 (last_chdir evs1 d).
Proof. apply foldl_app. Qed.

Lemma root_after_app (evs1 evs2 : list event) (d : level * list handler) :
  root_after (evs1 ++ evs2) d = root_after evs2 (root_after evs1 d).
Proof. apply foldl_app. Qed.

Lemma only_commands (allowed : list string → bool) (evs : list event) :
  Forall (only allowed) evs → Forall (λ c, allowed c = true) (commands evs).
Proof.
  induction 1 as [|e evs He _ IH]; [constructor|].
  destruct e; cbn in *; try done. by constructor.
Qed.

Lemma only_writes (allowed : list string → bool) (evs : list event) :
  Forall (only allowed) evs → writes evs = [].
Proof.
  induction 1 as [|e evs He _ IH]; [done|]. by destruct e.
Qed.

Lemma only_chdirs (allowed : list string → bool) (evs : list event) :
  Forall (only allowed) evs → chdirs evs = [].
Proof.
  induction 1 as [|e evs He _ IH]; [done|]. by destruct e.
Qed.

Lemma push_phase_commands (repo_dir : string) (evs : list event) :
  push_phase repo_dir evs → Forall (λ c, is_clone c = false) (commands evs).
Proof.
  intros [->|(rest & -> & H)]; [constructor|].
  change (commands (EvChdir repo_dir :: rest)) with (commands rest).
  eapply Forall_impl; [exact (only_commands _ _ H)|].
  intros c Hc. by apply negb_true_iff.
Qed.

Lemma push_phase_writes (repo_dir : string) (evs : list event) :
  push_phase repo_dir evs → writes evs = [].
Proof.
  intros [->|(rest & -> & H)]; [done|].
  change (writes (EvChdir repo_dir :: rest)) with (writes rest). by eapply only_writes.
Qed.

Lemma push_phase_chdirs (repo_dir : string) (evs : list event) :
  push_phase repo_dir evs → chdirs evs = [] ∨ chdirs evs = [repo_dir].
Proof.
  intros [->|(rest & -> & H)]; [by left|]. right.
  change (chdirs (EvChdir repo_dir :: rest)) with (repo_dir :: chdirs rest).
  by rewrite (only_chdirs _ _ H).
Qed.

Lemma chosen_clone_command_is_clone (sb : branch_value) (url dir : string) :
  is_clone (chosen_clone_command sb url dir) = true
  ∧ is_push (chosen_clone_command sb url dir) = false.
Proof. unfold chosen_clone_command. by destruct (is_all sb). Qed.

Lemma filter_replicate_true {A} (f : A → bool) (x : A) (n : nat) :
  f x = true → List.filter f (replicate n x) = replicate n x.
Proof. intros H. induction n as [|n IH]; [done|]. cbn. by rewrite H, IH. Qed.

Lemma filter_all_false {A} (f : A → bool) (l : list A) :
  Forall (λ x, f x = false) l → List.filter f l = [].
Proof. induction 1 as [|x l Hx _ IH]; [done|]. cbn. by rewrite Hx. Qed.

Section Outcome.
Context (config : Config) (only_clone_repos : bool) (w : world).
Hypothesis Hreach : reaches_block config w = true.

Lemma entry_events_quiet :
  commands (entry_events config w) = []
  ∧ chdirs (entry_events config w) = []
  ∧ writes (entry_events config w) = writes (load_events w).
Proof.
  unfold entry_events, precheck_events, load_events.
  by destruct (checkpoint_file w).
Qed.

Lemma recorded_migrated : migrated config (Some (recorded config w)) = true.
Proof. apply ledger_contains_record. Qed.

(** The state after the run, read off its trace. *)
Lemma block_run_state :
  let run := clone_and_push_repositories config only_clone_repos w in
  run.1 = Val tt
  ∧ checkpoint_file run.2 = Some (recorded config w)
  ∧ cwd run.2 = base_dir_of w
  ∧ (root_level run.2, root_handlers run.2)
    = match root_handlers w with
      | [] => (INFO, [FileHandler (log_path_of w); StreamHandler])
      | _ :: _ => (root_level w, root_handlers w)
      end.
Proof.
  destruct (block_run config only_clone_repos w Hreach)
    as (w' & i & evs_c & evs_p & Hrun & Hev & _ & _ & Hall & _ & Hp & _).
  cbn zeta. rewrite Hrun. cbn [fst snd].
  destruct (only_quiet _ _ Hall) as (_ & _ & Hoc).
  destruct (push_phase_quiet _ _ Hp) as (_ & Hop).
  split_and!.
  - reflexivity.
  - rewrite (ev_file _ _ _ Hev). by rewrite !last_write_app.
  - rewrite (ev_cwd _ _ _ Hev). by rewrite !last_chdir_app.
  - rewrite (ev_root _ _ _ Hev). rewrite !root_after_app.
    rewrite (root_after_quiet (final_events config w)) by (by repeat constructor).
    rewrite (root_after_quiet (handler_events config _))
      by (destruct (suite_of _ _ _ _).1; by repeat constructor).
    rewrite (root_after_quiet evs_p) by exact Hop.
    rewrite (root_after_quiet evs_c) by exact Hoc.
    unfold entry_events, precheck_events, load_events, listing_events.
    rewrite !root_after_app.
    rewrite (root_after_quiet [_; _]) by (by repeat constructor).
    rewrite (root_after_quiet (match checkpoint_file w with
                               | Some _ => []
                               | None => [EvWrite None ∅]
                               end))
      by (destruct (checkpoint_file w); by repeat constructor).
    rewrite (root_after_quiet [_]) by (by repeat constructor).
    unfold preamble_events, root_after. cbn.
    by destruct (root_handlers w).
Qed.

(** A later run, from any world whose ledger is the one this run left:
    nothing is run, the ledger stays, and the run ends at the skip
    check when the listing succeeds. *)
Lemma later_run_skips (only_clone_repos' : bool) (w2 : world) :
  checkpoint_file w2
  = checkpoint_file (clone_and_push_repositories config only_clone_repos w).2 →
  let run2 := clone_and_push_repositories config only_clone_repos' w2 in
  commands (new_events w2 run2.2) = []
  ∧ writes (new_events w2 run2.2) = []
  ∧ checkpoint_file run2.2 = checkpoint_file w2
  ∧ (listed config w2 = true →
       run2.1 = Val tt ∧ last (new_events w2 run2.2) = Some (skip_line config)).
Proof.
  intros Hsame.
  destruct block_run_state as (_ & Hfile & _).
  assert (migrated config (checkpoint_file w2) = true) as Hm.
  { rewrite Hsame, Hfile. apply recorded_migrated. }
  destruct (skip_run_quiet config only_clone_repos' w2 Hm) as (Hc & Hw & _ & Hf).
  destruct (skip_run config only_clone_repos' w2 Hm) as [Hev Hr].
  cbn zeta in *. split_and!; try done.
  intros Hl. rewrite Hl in Hev, Hr. split; [done|].
  rewrite (evolves_new_events _ _ _ Hev). apply last_snoc.
Qed.
End Outcome.

(** C1: in every run that gets into the [try], an exception raised by the
    clone or the push is caught there: the orchestrator logs it as an error
    and returns normally, and so does [main].  The [finally] still writes
    the checkpoint: after the error line come the write of the ledger with
    the repository recorded, the line that says so, and the change of
    directory; before it nothing was recorded.  The ledger that is left
    holds (collection, project, repo), and so every later run, whatever its
    flag, invokes no command, leaves the ledger as it is, and ends at the
    skip check when its listing succeeds. *)
Theorem failure_still_checkpointed (config : Config) (only_clone_repos : bool)
    (w : world) (e : exn) :
  reaches_block config w = true →
  (suite_of config only_clone_repos w (entry_world config w)).1 = Exc e →
  let run := clone_and_push_repositories config only_clone_repos w in
  let evs := new_events w run.2 in
  run.1 = Val tt
  ∧ (main config only_clone_repos w).1 = Val tt
  ∧ (∃ before, evs = before ++ [error_line config e] ++ final_events config w
               ∧ writes before = writes (load_events w))
  ∧ checkpoint_file run.2 = Some (recorded config w)
  ∧ migrated config (checkpoint_file run.2) = true
  ∧ (∀ (only_clone_repos' : bool) (w2 : world),
       checkpoint_file w2 = checkpoint_file run.2 →
       let run2 := clone_and_push_repositories config only_clone_repos' w2 in
       commands (new_events w2 run2.2) = []
       ∧ writes (new_events w2 run2.2) = []
       ∧ checkpoint_file run2.2 = checkpoint_file w2
       ∧ (listed config w2 = true →
            run2.1 = Val tt ∧ last (new_events w2 run2.2) = Some (skip_line config))).
Proof.
  intros Hreach Hexc run evs.
  destruct (block_run config only_clone_repos w Hreach)
    as (w' & i & evs_c & evs_p & Hrun & Hev & _ & _ & Hall & _ & Hp & _).
  cbn zeta in Hev. rewrite Hexc in Hev.
  destruct (block_run_state config only_clone_repos w Hreach) as (Hr & Hfile & _).
  cbn zeta in Hr, Hfile. subst evs run.
  split_and!.
  - exact Hr.
  - unfold main, try_except. by rewrite Hrun.
  - rewrite Hrun. cbn [snd]. rewrite (evolves_new_events _ _ _ Hev).
    exists (entry_events config w ++ evs_c ++ evs_p). split.
    + by rewrite <- !app_assoc.
    + rewrite !writes_app, (only_writes _ _ Hall), (push_phase_writes _ _ Hp).
      rewrite !app_nil_r. apply entry_events_quiet.
  - exact Hfile.
  - rewrite Hfile. apply recorded_migrated.
  - intros flag2 w2 Hsame.
    exact (later_run_skips config only_clone_repos w Hreach flag2 w2 Hsame).
Qed.

(** The clone works and GitHub rejects the push: the run returns normally
    and the ledger says the repository is migrated. *)
Lemma failure_still_checkpointed_witness :
  let w := sample_world None 200 run_push_rejected in
  let run := clone_and_push_repositories sample_config false w in
  run.1 = Val tt ∧ migrated sample_config (checkpoint_file run.2) = true.
Proof.
  intros w run.
  assert (reaches_block sample_config w = true) as Hreach by (vm_compute; reflexivity).
  assert ((suite_of sample_config false w (entry_world sample_config w)).1
          = Exc (retries_exhausted
                   (mirror_push_command (github_repo_url_of sample_config)) default_retries))
    as Hexc by (vm_compute; reflexivity).
  pose proof (failure_still_checkpointed sample_config false w _ Hreach Hexc) as H.
  exact (conj (proj1 H) (proj1 (proj2 (proj2 (proj2 (proj2 H)))))).
Defined.

(** C10: in clone-only mode a run that gets into the [try] invokes clone
    commands only (no push, no fetch), and its [finally] still records
    (collection, project, repo) in the ledger.  When the clone succeeds the
    trace is the pre-checks, the clone and the three events of the
    [finally], with no error in between.  Every later run from that ledger,
    with or without the flag, invokes no command at all, so it never
    pushes the repository; it leaves the ledger as it is and ends at the
    skip check when its listing succeeds. *)
Theorem clone_only_still_checkpointed (config : Config) (w : world) :
  reaches_block config w = true →
  let run := clone_and_push_repositories config true w in
  let evs := new_events w run.2 in
  run.1 = Val tt
  ∧ Forall (λ c, is_clone c = true ∧ is_push c = false) (commands evs)
  ∧ checkpoint_file run.2 = Some (recorded config w)
  ∧ migrated config (checkpoint_file run.2) = true
  ∧ ((suite_of config true w (entry_world config w)).1 = Val tt →
       ∃ evs_c, evs = entry_events config w ++ evs_c ++ final_events config w)
  ∧ (∀ (only_clone_repos' : bool) (w2 : world),
       checkpoint_file w2 = checkpoint_file run.2 →
       let run2 := clone_and_push_repositories config only_clone_repos' w2 in
       commands (new_events w2 run2.2) = []
       ∧ writes (new_events w2 run2.2) = []
       ∧ checkpoint_file run2.2 = checkpoint_file w2
       ∧ (listed config w2 = true →
            run2.1 = Val tt ∧ last (new_events w2 run2.2) = Some (skip_line config))).
Proof.
  intros Hreach run evs.
  destruct (block_run config true w Hreach)
    as (w' & i & evs_c & evs_p & Hrun & Hev & _ & Hc & Hall & _ & Hp & Hco).
  cbn zeta in Hev, Hc. rewrite (Hco eq_refl), app_nil_l in Hev.
  destruct (block_run_state config true w Hreach) as (Hr & Hfile & _).
  cbn zeta in Hr, Hfile. subst evs run.
  split_and!.
  - exact Hr.
  - rewrite Hrun. cbn [snd]. rewrite (evolves_new_events _ _ _ Hev).
    rewrite !commands_app, Hc.
    destruct (entry_events_quiet config w) as (-> & _ & _).
    assert (commands (handler_events config (suite_of config true w
                        (entry_world config w)).1) = []) as ->
      by by destruct (suite_of _ _ _ _).1.
    cbn [app]. rewrite app_nil_r.
    apply Forall_replicate. apply chosen_clone_command_is_clone.
  - exact Hfile.
  - rewrite Hfile. apply recorded_migrated.
  - intros Hok. rewrite Hok in Hev.
    change (handler_events config (Val tt)) with (@nil event) in Hev.
    rewrite app_nil_l in Hev.
    exists evs_c. rewrite Hrun. cbn [snd]. by rewrite (evolves_new_events _ _ _ Hev).
  - intros flag2 w2 Hsame.
    exact (later_run_skips config true w Hreach flag2 w2 Hsame).
Qed.

(** A clone-only run against servers that accept everything: the ledger
    records the repository, and the next run, without the flag, runs
    nothing. *)
Lemma clone_only_still_checkpointed_witness :
  let w := sample_world None 200 (run_exit 0) in
  let run := clone_and_push_repositories sample_config true w in
  migrated sample_config (checkpoint_file run.2) = true
  ∧ commands (new_events run.2 (clone_and_push_repositories sample_config false run.2).2) = [].
Proof.
  intros w run.
  assert (reaches_block sample_config w = true) as Hreach by (vm_compute; reflexivity).
  pose proof (clone_only_still_checkpointed sample_config w Hreach) as H.
  destruct H as (_ & _ & _ & Hm & _ & Hlater).
  split; [exact Hm|].
  exact (proj1 (Hlater false run.2 eq_refl)).
Defined.

Lemma is_all_spec (sb : branch_value) : is_all sb = true ↔ sb = BStr "all".
Proof.
  destruct sb as [s|l]; cbn [is_all].
  - rewrite bool_decide_eq_true. split; [by intros ->|by intros [= ->]].
  - split; [done|discriminate].
Qed.

Lemma chosen_clone_command_eq (sb : branch_value) (url dir : string) :
  (sb = BStr "all" → chosen_clone_command sb url dir
                     = ["git"; "clone"; "--mirror"; url; dir]%string)
  ∧ (sb ≠ BStr "all" → chosen_clone_command sb url dir
                       = ["git"; "clone"; url; dir]%string).
Proof.
  unfold chosen_clone_command. pose proof (is_all_spec sb) as H.
  destruct (is_all sb); split; try done.
  - intros Hne. destruct Hne. by apply H.
  - intros Heq. apply H in Heq. discriminate.
Qed.

(** C8: the branch selector is the configured value of
    [specific_branches], and ["all"] when the key is missing.  In a run
    that gets into the [try], for a repository whose name is one path
    component: when the clone directory is among the existing directories
    no clone command is invoked at all; when it is not, the clone commands
    of the run are one to three invocations (the retries) of one and the
    same command, which is [git clone --mirror <url> <dir>] when the
    selector equals ["all"] and [git clone <url> <dir>] for every other
    selector, a branch list or another string. *)
Theorem clone_mode_selection (config : Config) (only_clone_repos : bool) (w : world) :
  let sb := config_get_specific_branches config in
  let url := azure_repo_url_of config in
  let dir := repo_dir_of config w in
  (specific_branches config = None → sb = BStr "all")
  ∧ (∀ v, specific_branches config = Some v → sb = v)
  ∧ (reaches_block config w = true →
     path_component (tfs_source_repo config) = true →
     let run := clone_and_push_repositories config only_clone_repos w in
     let clones := List.filter is_clone (commands (new_events w run.2)) in
     (dir ∈ dirs (entry_world config w) → clones = [])
     ∧ (dir ∉ dirs (entry_world config w) → sb = BStr "all" →
        ∃ i, (1 ≤ i ≤ 3)%nat
             ∧ clones = replicate i ["git"; "clone"; "--mirror"; url; dir]%string)
     ∧ (dir ∉ dirs (entry_world config w) → sb ≠ BStr "all" →
        ∃ i, (1 ≤ i ≤ 3)%nat
             ∧ clones = replicate i ["git"; "clone"; url; dir]%string)).
Proof.
  cbn zeta. split_and!.
  - unfold config_get_specific_branches. by intros ->.
  - intros v Hv. unfold config_get_specific_branches. by rewrite Hv.
  - intros Hreach _.
    destruct (block_run config only_clone_repos w Hreach)
      as (w' & i & evs_c & evs_p & Hrun & Hev & _ & Hc & _ & Hex & Hp & _).
    cbn zeta in Hev, Hc.
    assert (List.filter is_clone
              (commands (new_events w
                 (clone_and_push_repositories config only_clone_repos w).2))
            = List.filter is_clone (commands evs_c)) as ->.
    { rewrite Hrun. cbn [snd]. rewrite (evolves_new_events _ _ _ Hev).
      rewrite !commands_app, !List.filter_app.
      destruct (entry_events_quiet config w) as (-> & _ & _).
      rewrite (filter_all_false _ _ (push_phase_commands _ _ Hp)).
      assert (commands (handler_events config (suite_of config only_clone_repos w
                          (entry_world config w)).1) = []) as ->
        by by destruct (suite_of _ _ _ _).1.
      change (commands (final_events config w)) with (@nil (list string)).
      change (List.filter is_clone []) with (@nil (list string)).
      by rewrite app_nil_l, !app_nil_r. }
    destruct (chosen_clone_command_eq (config_get_specific_branches config)
                (azure_repo_url_of config) (repo_dir_of config w)) as [Hall Hother].
    pose proof (chosen_clone_command_is_clone (config_get_specific_branches config)
                  (azure_repo_url_of config) (repo_dir_of config w)) as [Hclone _].
    rewrite Hc. rewrite (filter_replicate_true _ _ _ Hclone).
    split_and!.
    + intros Hin. rewrite (bool_decide_eq_true_2 _ Hin) in Hex.
      rewrite Hex in Hc. cbn in Hc. by destruct i.
    + intros Hnot Hsb. rewrite (bool_decide_eq_false_2 _ Hnot) in Hex.
      exists i. split; [exact Hex|]. by rewrite (Hall Hsb).
    + intros Hnot Hsb. rewrite (bool_decide_eq_false_2 _ Hnot) in Hex.
      exists i. split; [exact Hex|]. by rewrite (Hother Hsb).
Qed.

(** Two first runs with no clone directory yet: without a selector in the
    configuration the clone of the run is the mirror clone; with a branch
    list as selector it is the plain clone. *)
Lemma clone_mode_selection_witness :
  let w := sample_world None 200 (run_exit 0) in
  let clones config :=
    List.filter is_clone
      (commands (new_events w (clone_and_push_repositories config false w).2)) in
  (config_get_specific_branches sample_config = BStr "all"
   ∧ ∃ i, (1 ≤ i ≤ 3)%nat
          ∧ clones sample_config
            = replicate i
                ["git"; "clone"; "--mirror";
                 "https://tfs.example.com/contoso/payments/_git/billing";
                 "/work/tfs_repo_migration/tfs_git_repo/contoso/payments/billing"]%string)
  ∧ (config_get_specific_branches branch_list_config
     = BList ["main"; "feature-x"]%string
     ∧ ∃ i, (1 ≤ i ≤ 3)%nat
            ∧ clones branch_list_config
              = replicate i
                  ["git"; "clone";
                   "https://tfs.example.com/contoso/payments/_git/billing";
                   "/work/tfs_repo_migration/tfs_git_repo/contoso/payments/billing"]%string).
Proof.
  intros w clones. subst clones. cbn beta.
  assert (reaches_block sample_config w = true) as Hreach by (vm_compute; reflexivity).
  assert (reaches_block branch_list_config w = true) as Hreach' by (vm_compute; reflexivity).
  assert (path_component (tfs_source_repo sample_config) = true) as Hname
    by (vm_compute; reflexivity).
  assert (path_component (tfs_source_repo branch_list_config) = true) as Hname'
    by (vm_compute; reflexivity).
  assert (repo_dir_of sample_config w ∉ dirs (entry_world sample_config w)) as Habsent.
  { apply (bool_decide_eq_false_1 _). vm_compute. reflexivity. }
  assert (repo_dir_of branch_list_config w ∉ dirs (entry_world branch_list_config w))
    as Habsent'.
  { apply (bool_decide_eq_false_1 _). vm_compute. reflexivity. }
  assert (config_get_specific_branches branch_list_config ≠ BStr "all") as Hlist
    by discriminate.
  pose proof (clone_mode_selection sample_config false w) as (H1 & _ & H3).
  pose proof (clone_mode_selection branch_list_config false w) as (_ & H2' & H3').
  split.
  - split; [exact (H1 eq_refl)|].
    exact (proj1 (proj2 (H3 Hreach Hname)) Habsent (H1 eq_refl)).
  - split; [exact (H2' _ eq_refl)|].
    exact (proj2 (proj2 (H3' Hreach' Hname')) Habsent' Hlist).
Defined.

(** C9, as amended: in a run that gets into the [try], whatever way the
    block is left (clone or push raised or not, clone-only or not) the
    working directory is the base migration directory afterwards.  Up to
    and during the clone the directory is not changed; the only change to
    the clone directory is the first event of the push phase, which a
    clone-only run does not have; the last event of the run is the change
    to the base directory.  The one other piece of process-wide state the
    run touches is the root logger: [setup_logging] gives it the level
    INFO and a file and a stream handler when it had no handler, and
    leaves it alone otherwise. *)
Theorem working_directory_effect (config : Config) (only_clone_repos : bool) (w : world) :
  reaches_block config w = true →
  let run := clone_and_push_repositories config only_clone_repos w in
  let evs := new_events w run.2 in
  cwd run.2 = base_dir_of w
  ∧ (∃ evs_c evs_p,
       evs = entry_events config w ++ evs_c ++ evs_p
               ++ handler_events config (suite_of config only_clone_repos w
                                           (entry_world config w)).1
               ++ final_events config w
       ∧ chdirs (entry_events config w ++ evs_c) = []
       ∧ Forall (λ c, is_clone c = true) (commands evs_c)
       ∧ push_phase (repo_dir_of config w) evs_p
       ∧ (only_clone_repos = true → evs_p = []))
  ∧ (chdirs evs = [base_dir_of w] ∨ chdirs evs = [repo_dir_of config w; base_dir_of w])
  ∧ (only_clone_repos = true → chdirs evs = [base_dir_of w])
  ∧ last evs = Some (EvChdir (base_dir_of w))
  ∧ (root_level run.2, root_handlers run.2)
    = match root_handlers w with
      | [] => (INFO, [FileHandler (log_path_of w); StreamHandler])
      | _ :: _ => (root_level w, root_handlers w)
      end.
Proof.
  intros Hreach run evs.
  destruct (block_run config only_clone_repos w Hreach)
    as (w' & i & evs_c & evs_p & Hrun & Hev & _ & Hc & Hall & _ & Hp & Hco).
  cbn zeta in Hev, Hc.
  destruct (block_run_state config only_clone_repos w Hreach) as (_ & _ & Hcwd & Hroot).
  cbn zeta in Hcwd, Hroot.
  assert (evs = entry_events config w ++ evs_c ++ evs_p
                  ++ handler_events config (suite_of config only_clone_repos w
                                              (entry_world config w)).1
                  ++ final_events config w) as Hevs.
  { subst evs run. rewrite Hrun. cbn [snd]. by rewrite (evolves_new_events _ _ _ Hev). }
  assert (chdirs (entry_events config w ++ evs_c) = []) as Hquiet.
  { rewrite chdirs_app, (only_chdirs _ _ Hall).
    by destruct (entry_events_quiet config w) as (_ & -> & _). }
  assert (chdirs (handler_events config (suite_of config only_clone_repos w
                    (entry_world config w)).1) = []) as Hh
    by by destruct (suite_of _ _ _ _).1.
  assert (chdirs evs = chdirs evs_p ++ [base_dir_of w]) as Hcd.
  { rewrite Hevs, app_assoc, (chdirs_app (_ ++ _)), Hquiet, app_nil_l.
    by rewrite !chdirs_app, Hh, app_nil_l. }
  split_and!.
  - exact Hcwd.
  - exists evs_c, evs_p. split_and!; try done.
    rewrite Hc. apply Forall_replicate, chosen_clone_command_is_clone.
  - rewrite Hcd. destruct (push_phase_chdirs _ _ Hp) as [-> | ->]; [by left|by right].
  - intros Hflag. by rewrite Hcd, (Hco Hflag).
  - rewrite Hevs, !app_assoc. unfold final_events.
    change [EvWrite (Some 4) (recorded config w); checkpoint_line config;
            EvChdir (base_dir_of w)]
      with ([EvWrite (Some 4) (recorded config w); checkpoint_line config]
              ++ [EvChdir (base_dir_of w)]).
    rewrite app_assoc. apply last_snoc.
  - exact Hroot.
Qed.

(** A full run against servers that accept everything ends in the base
    directory. *)
Lemma working_directory_effect_witness :
  let w := sample_world None 200 (run_exit 0) in
  cwd (clone_and_push_repositories sample_config false w).2 = base_dir_of w.
Proof.
  intros w.
  assert (reaches_block sample_config w = true) as Hreach by (vm_compute; reflexivity).
  exact (proj1 (working_directory_effect sample_config false w Hreach)).
Defined.

(** C9, as stated, fails in its last part: the working directory is not
    the only process-wide state a run changes.  A run started with an
    unconfigured root logger (level WARNING, no handlers) leaves it at
    level INFO with a file handler and a stream handler. *)
Lemma run_configures_root_logger :
  let w := sample_world None 200 (run_exit 0) in
  let run := clone_and_push_repositories sample_config false w in
  reaches_block sample_config w = true
  ∧ run.1 = Val tt
  ∧ (root_level w, root_handlers w) = (WARNING, [])
  ∧ (root_level run.2, root_handlers run.2)
    = (INFO,
       [FileHandler "/work/tfs_repo_migration/tfs_git_migration_log/script_log_2024-01-01_00-00-00.log";
        StreamHandler])
  ∧ (root_level run.2, root_handlers run.2) ≠ (root_level w, root_handlers w).
Proof. vm_compute. split_and!; try reflexivity. discriminate. Qed.

(** * Further properties of the code *)

(** ** The retry wrapper under any environment *)

Lemma total_app (l1 l2 : list Z) : total (l1 ++ l2) = total l1 + total l2.
Proof. unfold total. induction l1 as [|x l1 IH]; cbn; [done|]. rewrite IH. lia. Qed.

Lemma total_powers (a k : nat) :
  total ((λ j, 2 ^ Z.of_nat j) <$> seq a k) = 2 ^ Z.of_nat a * (2 ^ Z.of_nat k - 1).
Proof.
  revert a. induction k as [|k IH]; intros a.
  - cbn. lia.
  - cbn [seq fmap list_fmap]. change (total (?x :: ?l)) with (x + total l).
    rewrite IH. rewrite !Nat2Z.inj_succ, !Z.pow_succ_r by lia. lia.
Qed.

(** The trace of [retry_loop] in full: some failed rounds, then the
    invocation that ended the loop, if any. *)
Lemma retry_loop_trace (command : list string) (retries : Z) (remaining : nat) :
  ∀ a w, ∃ k,
    (k ≤ remaining)%nat
    ∧ evolves w (retry_loop command retries (Z.of_nat a) remaining w).2
        (failed_rounds command retries a k ++ last_invocation command remaining k)
    ∧ (∀ j, (j < k)%nat →
         exits_nonzero (status (subprocess_run w
           (trace w ++ failed_rounds command retries a j) command)) = true)
    ∧ (if bool_decide (k < remaining)%nat
       then match status (subprocess_run w
                    (trace w ++ failed_rounds command retries a k) command) with
            | Exited rc =>
                rc = 0 ∧ (retry_loop command retries (Z.of_nat a) remaining w).1 = Val tt
            | SpawnFailed msg =>
                (retry_loop command retries (Z.of_nat a) remaining w).1 = Exc (OSError msg)
            end
       else (retry_loop command retries (Z.of_nat a) remaining w).1
            = Exc (retries_exhausted command retries)).
Proof.
  induction remaining as [|remaining IH]; intros a w.
  - exists 0%nat. split_and!; [lia|apply evolves_refl|intros j Hj; lia|done].
  - rewrite retry_loop_step.
    assert (evolves w
              (set_dirs (dirs w ∪ list_to_set (creates (subprocess_run w (trace w) command)))
                 (emit (EvRun command) w)) [EvRun command]) as Hone.
    { apply evolves_set_dirs; [by apply evolves_emit|]. rewrite dirs_emit. set_solver. }
    destruct (status (subprocess_run w (trace w) command)) as [rc|msg] eqn:Hst.
    + case_bool_decide as Hrc.
      * exists 0%nat. unfold last_invocation.
        rewrite !(bool_decide_eq_true_2 (0 < S remaining)%nat) by lia.
        split_and!; [lia|exact Hone|intros j Hj; lia|].
        change (failed_rounds command retries a 0) with (@nil event).
        rewrite app_nil_r, Hst. done.
      * pose proof (after_failed_round_evolves command retries a w) as Hev.
        destruct (IH (S a) (after_failed_round command retries a w))
          as (k & Hk & Hev' & Hfail & Hend).
        exists (S k). split_and!.
        -- lia.
        -- rewrite failed_rounds_S, <- app_assoc.
           eapply evolves_trans; [exact Hev|].
           unfold last_invocation in *.
           destruct (decide (k < remaining)%nat).
           ++ rewrite (bool_decide_eq_true_2 (S k < S remaining)%nat) by lia.
              by rewrite (bool_decide_eq_true_2 (k < remaining)%nat) in Hev' by lia.
           ++ rewrite (bool_decide_eq_false_2 (S k < S remaining)%nat) by lia.
              by rewrite (bool_decide_eq_false_2 (k < remaining)%nat) in Hev' by lia.
        -- intros [|j] Hj.
           ++ change (failed_rounds command retries a 0) with (@nil event).
              rewrite app_nil_r, Hst. cbn. by rewrite bool_decide_eq_false_2.
           ++ rewrite failed_rounds_S, app_assoc.
              rewrite <- (ev_trace _ _ _ Hev), <- (ev_subprocess _ _ _ Hev).
              apply Hfail. lia.
        -- rewrite failed_rounds_S, app_assoc.
           rewrite <- (ev_trace _ _ _ Hev), <- (ev_subprocess _ _ _ Hev).
           destruct (decide (k < remaining)%nat).
           ++ rewrite (bool_decide_eq_true_2 (S k < S remaining)%nat) by lia.
              by rewrite (bool_decide_eq_true_2 (k < remaining)%nat) in Hend by lia.
           ++ rewrite (bool_decide_eq_false_2 (S k < S remaining)%nat) by lia.
              by rewrite (bool_decide_eq_false_2 (k < remaining)%nat) in Hend by lia.
    + exists 0%nat. unfold last_invocation.
      rewrite !(bool_decide_eq_true_2 (0 < S remaining)%nat) by lia.
      split_and!; [lia|exact Hone|intros j Hj; lia|].
      change (failed_rounds command retries a 0) with (@nil event).
      rewrite app_nil_r, Hst. done.
Qed.

Lemma last_invocation_quiet (command : list string) (n k : nat) :
  delays (last_invocation command n k) = []
  ∧ commands (last_invocation command n k)
    = replicate (if bool_decide (k < n)%nat then 1 else 0)%nat command.
Proof. unfold last_invocation. by case_bool_decide. Qed.

(** Whatever the command and the environment do, [retry_subprocess]
    invokes the given command and no other, at most [retries] times, and
    the time it sleeps is [2^k - 1] for the [k] failed rounds, which is at
    most [2^retries - 1]. *)
Theorem retry_subprocess_any_environment (command : list string) (n : Z) (w : world) :
  let run := retry_subprocess command n w in
  let evs := new_events w run.2 in
  ∃ k, (k ≤ Z.to_nat n)%nat
       ∧ evs = failed_rounds command n 0 k ++ last_invocation command (Z.to_nat n) k
       ∧ (length (commands evs) ≤ Z.to_nat n)%nat
       ∧ commands evs = replicate (length (commands evs)) command
       ∧ delays evs = (λ j, 2 ^ Z.of_nat j) <$> seq 0 k
       ∧ total (delays evs) = 2 ^ Z.of_nat k - 1
       ∧ total (delays evs) ≤ 2 ^ Z.of_nat (Z.to_nat n) - 1.
Proof.
  intros run evs. subst evs run. unfold retry_subprocess.
  destruct (retry_loop_trace command n (Z.to_nat n) 0 w) as (k & Hk & Hev & _ & _).
  change (Z.of_nat 0) with 0 in Hev.
  exists k. rewrite (evolves_new_events _ _ _ Hev).
  destruct (last_invocation_quiet command (Z.to_nat n) k) as [Hd Hc].
  assert (commands (failed_rounds command n 0 k ++ last_invocation command (Z.to_nat n) k)
          = replicate (k + if bool_decide (k < Z.to_nat n)%nat then 1 else 0)%nat command)
    as Hcmd.
  { by rewrite commands_app, commands_failed_rounds, Hc, replicate_add. }
  assert (delays (failed_rounds command n 0 k ++ last_invocation command (Z.to_nat n) k)
          = (λ j, 2 ^ Z.of_nat j) <$> seq 0 k) as Hdel.
  { by rewrite delays_app, delays_failed_rounds, Hd, app_nil_r. }
  rewrite Hcmd, Hdel, length_replicate, total_powers.
  split_and!; try done.
  - case_bool_decide; lia.
  - change (Z.of_nat 0) with 0. lia.
  - change (Z.of_nat 0) with 0.
    assert (2 ^ Z.of_nat k ≤ 2 ^ Z.of_nat (Z.to_nat n)) by (apply Z.pow_le_mono_r; lia).
    lia.
Qed.

(** A command that cannot be started is not retried: when the invocation
    after [k] failed rounds raises an [OSError] instead of exiting, that
    error leaves [retry_subprocess] at once, with no warning and no
    delay after it. *)
Theorem retry_subprocess_spawn_failure (command : list string) (n : Z) (w : world)
    (k : nat) (msg : string) :
  (k < Z.to_nat n)%nat →
  (∀ j, (j < k)%nat → exits_nonzero (status_at w command n j) = true) →
  status_at w command n k = SpawnFailed msg →
  let run := retry_subprocess command n w in
  run.1 = Exc (OSError msg)
  ∧ new_events w run.2 = failed_rounds command n 0 k ++ [EvRun command].
Proof.
  intros Hk Hfail Hspawn run. subst run. unfold retry_subprocess.
  destruct (retry_loop_trace command n (Z.to_nat n) 0 w) as (k' & Hk' & Hev & Hfail' & Hend).
  change (Z.of_nat 0) with 0 in *. unfold status_at in *.
  assert (k' = k) as ->.
  { destruct (Nat.lt_trichotomy k' k) as [Hlt|[->|Hgt]]; [|done|].
    - rewrite bool_decide_eq_true_2 in Hend by lia.
      pose proof (Hfail k' Hlt) as Hnz.
      destruct (status (subprocess_run w (trace w ++ failed_rounds command n 0 k') command))
        as [rc|m]; [|discriminate Hnz].
      destruct Hend as [-> _]. discriminate Hnz.
    - pose proof (Hfail' k Hgt) as Hnz. by rewrite Hspawn in Hnz. }
  rewrite bool_decide_eq_true_2 in Hend by lia. rewrite Hspawn in Hend.
  split; [exact Hend|].
  rewrite (evolves_new_events _ _ _ Hev). unfold last_invocation.
  by rewrite bool_decide_eq_true_2.
Qed.

(** Without a [git] binary the first invocation is the only one. *)
Lemma retry_subprocess_spawn_failure_witness :
  let w := sample_world None 200 run_missing_binary in
  (retry_subprocess sample_command default_retries w).1
  = Exc (OSError "[Errno 2] No such file or directory: 'git'")
  ∧ new_events w (retry_subprocess sample_command default_retries w).2
    = [EvRun sample_command].
Proof.
  intros w.
  apply (retry_subprocess_spawn_failure sample_command default_retries w 0
           "[Errno 2] No such file or directory: 'git'").
  - vm_compute. lia.
  - intros j Hj. lia.
  - reflexivity.
Defined.

(** With a retry bound of zero or less the command is never invoked: the
    terminal error is raised at once and nothing has happened. *)
Theorem retry_subprocess_no_attempts (command : list string) (n : Z) (w : world) :
  n ≤ 0 →
  retry_subprocess command n w
  = (Exc (Exception ("Command failed after " +:+ pretty n +:+ " retries: "
                     +:+ repr_list command)), w).
Proof.
  intros Hn. unfold retry_subprocess.
  assert (Z.to_nat n = 0%nat) as -> by lia. reflexivity.
Qed.

Lemma retry_subprocess_no_attempts_witness :
  (retry_subprocess sample_command 0 (sample_world None 200 (run_exit 0))).1
  = Exc (Exception "Command failed after 0 retries: ['git', 'fetch', 'origin', 'main']").
Proof.
  rewrite (retry_subprocess_no_attempts sample_command 0
             (sample_world None 200 (run_exit 0))) by lia.
  reflexivity.
Defined.

(** ** The ledger: invariants *)

(** [save_checkpoint] keeps a duplicate-free ledger duplicate-free, never
    removes an entry, and afterwards the repository is recorded. *)
Theorem save_checkpoint_keeps_nodup (c p r : string) (w : world) :
  let doc := default ∅ (checkpoint_file w) in
  let doc' := default ∅ (checkpoint_file (save_checkpoint c p r w).2) in
  (∀ c' p', NoDup (repos_of doc c' p')) →
  (∀ c' p', NoDup (repos_of doc' c' p'))
  ∧ (∀ c' p' r', r' ∈ repos_of doc c' p' → r' ∈ repos_of doc' c' p')
  ∧ r ∈ repos_of doc' c p.
Proof.
  intros doc doc' Hnd. subst doc'. rewrite save_checkpoint_eq. fold doc. cbn zeta.
  destruct (ledger_contains doc c p r) eqn:Hin; cbn [snd].
  - fold doc. split_and!; [done|done|].
    rewrite ledger_contains_spec in Hin. by apply bool_decide_eq_true in Hin.
  - rewrite ledger_contains_spec in Hin. apply bool_decide_eq_false in Hin.
    change (default ∅ (checkpoint_file (emit _ (set_checkpoint_file _ _))))
      with (record doc c p r).
    split_and!.
    + intros c' p'. rewrite repos_of_record. case_bool_decide; [|done].
      apply NoDup_app. split_and!; [done| |apply NoDup_singleton].
      intros x Hx Hx'. apply list_elem_of_singleton in Hx'. by subst.
    + intros c' p' r' Hr. rewrite repos_of_record. case_bool_decide as H; [|done].
      destruct H as [-> ->]. apply elem_of_app. by left.
    + rewrite repos_of_record, bool_decide_eq_true_2 by done.
      apply elem_of_app. right. by apply list_elem_of_singleton.
Qed.

Lemma save_checkpoint_keeps_nodup_witness :
  let w := sample_world None 200 (run_exit 0) in
  "billing"%string
  ∈ repos_of (default ∅ (checkpoint_file (save_checkpoint "contoso" "payments" "billing" w).2))
      "contoso" "payments".
Proof.
  intros w.
  apply (save_checkpoint_keeps_nodup "contoso" "payments" "billing" w).
  intros c' p'. change (default ∅ (checkpoint_file w)) with (∅ : ledger).
  unfold repos_of. rewrite lookup_empty. cbn [default from_option id].
  rewrite lookup_empty. apply NoDup_nil_2.
Defined.

(** On a checkpoint file that is missing or holds a ledger document (the
    files of the world; [json.load] raises on any other content)
    [load_checkpoint] returns normally and does not change the ledger
    mapping: it returns the document of the file, or the empty document
    after creating the file with it, its only write; a second load returns
    the same document and has no effect at all. *)
Theorem load_checkpoint_idempotent (w : world) :
  let first := load_checkpoint w in
  first.1 = Val (default ∅ (checkpoint_file w))
  ∧ checkpoint_file first.2 = Some (default ∅ (checkpoint_file w))
  ∧ writes (new_events w first.2)
    = match checkpoint_file w with Some _ => [] | None => [∅] end
  ∧ load_checkpoint first.2 = (first.1, first.2).
Proof.
  cbn zeta. rewrite load_checkpoint_eq.
  destruct (checkpoint_file w) as [doc|] eqn:Hf; cbn [fst snd default from_option id].
  - rewrite new_events_same, load_checkpoint_eq, Hf. done.
  - rewrite (new_events_app _ _ [EvWrite None ∅]) by done.
    rewrite load_checkpoint_eq. done.
Qed.

(** ** Runs that do not get into the [try] *)

Lemma trace_emit (e : event) (w : world) : trace (emit e w) = trace w ++ [e].
Proof. reflexivity. Qed.

Lemma early_run (config : Config) (only_clone_repos : bool) (w : world) :
  reaches_block config w = false →
  let run := clone_and_push_repositories config only_clone_repos w in
  run.1 = early_outcome config w
  ∧ evolves w run.2 (early_events config w).
Proof.
  intros Hnot. cbn zeta. rewrite run_eq.
  unfold early_outcome, early_events, listing_error.
  unfold reaches_block, reaches_check, destination_status in Hnot.
  unfold listed in *.
  pose proof (listed_world_evolves config w) as Hl.
  destruct (listing_answer config w) as [r|msg]; [|by split].
  destruct (bool_decide (status_code r = 200)); [|by split].
  destruct (bool_decide (tfs_source_repo config ∈ _)); [|by split].
  cbn [negb andb] in *.
  destruct (migrated config (checkpoint_file w)) eqn:Hm.
  - cbn [fst snd]. split; [reflexivity|].
    rewrite loaded_world_eq. destruct (migrated_has_file _ _ Hm) as [doc ->].
    eapply evolves_trans; [exact Hl|]. by apply evolves_emit.
  - cbn [negb andb] in Hnot.
    pose proof (loaded_world_evolves config w) as Hld.
    destruct (destination_answer config w) as [r2|msg].
    + apply bool_decide_eq_false in Hnot.
      rewrite (bool_decide_eq_false_2 (status_code r2 = 200)) by (intros H; by rewrite H in Hnot).
      cbn [fst snd]. split; [reflexivity|]. apply missing_world_evolves.
    + cbn [fst snd]. split; [reflexivity|].
      eapply evolves_trans; [exact Hld|]. by apply evolves_emit.
Qed.

Lemma early_events_quiet (config : Config) (w : world) :
  commands (early_events config w) = []
  ∧ chdirs (early_events config w) = []
  ∧ gets (early_events config w)
    = listing_url config
        :: (if listed config w && negb (migrated config (checkpoint_file w))
            then [github_api_url config] else [])
  ∧ last_chdir (early_events config w) (cwd w) = cwd w
  ∧ default ∅ (last_write (early_events config w) (checkpoint_file w))
    = default ∅ (checkpoint_file w)
  ∧ (listed config w = false →
       last_write (early_events config w) (checkpoint_file w) = checkpoint_file w).
Proof.
  unfold early_events, precheck_events, load_events.
  destruct (listed config w); cbn [negb andb].
  - destruct (migrated config (checkpoint_file w)); cbn [negb].
    + split_and!; first [done | by destruct (checkpoint_file w)].
    + destruct (destination_answer config w), (checkpoint_file w); by split_and!.
  - split_and!; first [done | by destruct (checkpoint_file w)].
Qed.

(** When the listing step fails (the server cannot be reached, answers
    with another status than 200, or does not list the source repository)
    the orchestrator raises after the listing request: the ledger file is
    neither read nor created, GitHub is not asked, no command is invoked
    and the working directory is as before.  [main] catches the exception,
    logs it and returns normally. *)
Theorem listing_failure (config : Config) (only_clone_repos : bool) (w : world) :
  listed config w = false →
  let run := clone_and_push_repositories config only_clone_repos w in
  let evs := new_events w run.2 in
  run.1 = Exc (listing_error config w)
  ∧ evs = listing_events config w
  ∧ commands evs = []
  ∧ gets evs = [listing_url config]
  ∧ checkpoint_file run.2 = checkpoint_file w
  ∧ cwd run.2 = cwd w
  ∧ (main config only_clone_repos w).1 = Val tt
  ∧ new_events w (main config only_clone_repos w).2
    = listing_events config w
        ++ [EvLog ERROR ("An error occurred: " +:+ str_exn (listing_error config w))].
Proof.
  intros Hl run evs.
  assert (reaches_block config w = false) as Hnot
    by (unfold reaches_block, reaches_check; by rewrite Hl).
  destruct (early_run config only_clone_repos w Hnot) as [Hr Hev].
  destruct (early_events_quiet config w) as (Hc & _ & Hg & Hcwd & _ & Hfile).
  cbn zeta in Hr, Hev. unfold early_outcome in Hr. rewrite Hl in Hr. cbn [negb] in Hr.
  assert (early_events config w = listing_events config w) as Hee
    by (unfold early_events; by rewrite Hl).
  subst evs run. rewrite (evolves_new_events _ _ _ Hev).
  rewrite (ev_file _ _ _ Hev), (ev_cwd _ _ _ Hev), Hcwd, (Hfile Hl), Hc, Hg, Hl, Hee.
  split_and!; try done.
  - unfold main, try_except.
    destruct (clone_and_push_repositories config only_clone_repos w) as [r w'].
    cbn [fst] in Hr. by rewrite Hr.
  - unfold main, try_except.
    destruct (clone_and_push_repositories config only_clone_repos w) as [r w'].
    cbn [fst snd] in Hr, Hev. rewrite Hr. unfold logging, act. cbn [snd].
    apply new_events_app. rewrite trace_emit.
    by rewrite (ev_trace _ _ _ Hev), Hee, <- app_assoc.
Qed.

(** The listing server answers 503: the run stops there. *)
Lemma listing_failure_witness :
  let w := sample_world None 200 (run_exit 0) in
  let w503 :=
    {| cwd := cwd w; root_level := root_level w; root_handlers := root_handlers w;
       dirs := dirs w; checkpoint_file := None; trace := [];
       http_get := λ _ _ _, Responded {| status_code := 503; text := "Service Unavailable";
                                         json_value := None |};
       subprocess_run := subprocess_run w; now := now w |} in
  (clone_and_push_repositories sample_config false w503).1
  = Exc (Exception "Failed to fetch repositories: Service Unavailable")
  ∧ checkpoint_file (clone_and_push_repositories sample_config false w503).2 = None.
Proof.
  intros w w503.
  assert (listed sample_config w503 = false) as Hl by (vm_compute; reflexivity).
  pose proof (listing_failure sample_config false w503 Hl) as (H1 & _ & _ & _ & H5 & _).
  split; [exact H1|exact H5].
Defined.

(** When GitHub cannot be reached for the existence check, the exception
    of the request leaves the orchestrator (the check stands before the
    [try]): no command is invoked, no checkpoint is recorded, the working
    directory is as before, and [main] logs the exception and returns
    normally. *)
Theorem existence_check_unreachable (config : Config) (only_clone_repos : bool)
    (w : world) (msg : string) :
  reaches_check config w = true →
  destination_answer config w = ConnectionFailed msg →
  let run := clone_and_push_repositories config only_clone_repos w in
  let evs := new_events w run.2 in
  run.1 = Exc (RequestException msg)
  ∧ evs = precheck_events config w
            ++ [EvGet (github_api_url config) (get_github_auth_header (github_token config))]
  ∧ commands evs = []
  ∧ default ∅ (checkpoint_file run.2) = default ∅ (checkpoint_file w)
  ∧ migrated config (checkpoint_file run.2) = false
  ∧ cwd run.2 = cwd w
  ∧ (main config only_clone_repos w).1 = Val tt.
Proof.
  intros Hreach Hans run evs.
  assert (reaches_block config w = false) as Hnot.
  { unfold reaches_block, destination_status. rewrite Hreach, Hans. done. }
  destruct (early_run config only_clone_repos w Hnot) as [Hr Hev].
  destruct (early_events_quiet config w) as (Hc & _ & _ & Hcwd & Hfile & _).
  cbn zeta in Hr, Hev.
  unfold reaches_check in Hreach.
  destruct (listed config w) eqn:Hl; [|discriminate Hreach].
  destruct (migrated config (checkpoint_file w)) eqn:Hm; [discriminate Hreach|].
  unfold early_outcome in Hr. rewrite Hl, Hm, Hans in Hr. cbn [negb] in Hr.
  assert (early_events config w
          = precheck_events config w
              ++ [EvGet (github_api_url config)
                    (get_github_auth_header (github_token config))]) as Hee
    by (unfold early_events; by rewrite Hl, Hm, Hans).
  subst evs run. rewrite (evolves_new_events _ _ _ Hev).
  unfold migrated at 1.
  rewrite (ev_file _ _ _ Hev), (ev_cwd _ _ _ Hev), Hcwd, Hfile, Hc, Hee.
  split_and!; try done.
  unfold main, try_except.
  destruct (clone_and_push_repositories config only_clone_repos w) as [r w'].
  cbn [fst] in Hr. by rewrite Hr.
Qed.

Lemma existence_check_unreachable_witness :
  let w := sample_world None 200 (run_exit 0) in
  let w' :=
    {| cwd := cwd w; root_level := root_level w; root_handlers := root_handlers w;
       dirs := dirs w; checkpoint_file := None; trace := [];
       http_get := λ h url hd,
         if bool_decide (url = listing_url sample_config) then Responded sample_listing
         else ConnectionFailed "Connection refused";
       subprocess_run := subprocess_run w; now := now w |} in
  (clone_and_push_repositories sample_config false w').1
  = Exc (RequestException "Connection refused")
  ∧ commands (new_events w' (clone_and_push_repositories sample_config false w').2) = [].
Proof.
  intros w w'.
  assert (reaches_check sample_config w' = true) as Hreach by (vm_compute; reflexivity).
  assert (destination_answer sample_config w' = ConnectionFailed "Connection refused")
    as Hans by (vm_compute; reflexivity).
  pose proof (existence_check_unreachable sample_config false w' _ Hreach Hans)
    as (H1 & _ & H3 & _).
  split; [exact H1|exact H3].
Defined.

(** ** Every run *)

Lemma ledger_contains_record_eq (doc : ledger) (c p r c' p' r' : string) :
  ledger_contains (record doc c p r) c' p' r'
  = ledger_contains doc c' p' r' || bool_decide (c' = c ∧ p' = p ∧ r' = r).
Proof.
  rewrite !ledger_contains_spec, repos_of_record.
  destruct (decide (c' = c ∧ p' = p)) as [[-> ->]|H1].
  - rewrite (bool_decide_eq_true_2 (c = c ∧ p = p)) by done.
    apply eq_true_iff_eq. rewrite orb_true_iff, !bool_decide_eq_true.
    rewrite elem_of_app, list_elem_of_singleton.
    split; (intros [?|H]; [by left|right]); [by subst|by destruct H as (_ & _ & ->)].
  - rewrite (bool_decide_eq_false_2 (c' = c ∧ p' = p)) by done.
    rewrite (bool_decide_eq_false_2 (c' = c ∧ p' = p ∧ r' = r))
      by (intros (? & ? & ?); by apply H1).
    by rewrite orb_false_r.
Qed.

(** What any run does to the ledger: it adds the configured (collection,
    project, repo) when it gets into the [try], and nothing else; no entry
    is ever removed, and a run that stops before the [try] leaves the
    mapping as it was. *)
Theorem run_ledger_effect (config : Config) (only_clone_repos : bool) (w : world)
    (c p r : string) :
  let run := clone_and_push_repositories config only_clone_repos w in
  ledger_contains (default ∅ (checkpoint_file run.2)) c p r
  = ledger_contains (default ∅ (checkpoint_file w)) c p r
    || (reaches_block config w
        && bool_decide (c = azure_devops_organization config
                        ∧ p = azure_devops_project config
                        ∧ r = tfs_source_repo config)).
Proof.
  cbn zeta. destruct (reaches_block config w) eqn:Hreach.
  - destruct (block_run_state config only_clone_repos w Hreach) as (_ & Hfile & _).
    cbn zeta in Hfile. rewrite Hfile. cbn [default from_option id andb].
    apply ledger_contains_record_eq.
  - destruct (early_run config only_clone_repos w Hreach) as [_ Hev].
    destruct (early_events_quiet config w) as (_ & _ & _ & _ & Hfile & _).
    cbn zeta in Hev. rewrite (ev_file _ _ _ Hev), Hfile.
    cbn [andb]. by rewrite orb_false_r.
Qed.

Lemma dirs_set_checkpoint_file (f : option ledger) (w : world) :
  dirs (set_checkpoint_file f w) = dirs w.
Proof. reflexivity. Qed.

Lemma loaded_world_dirs (config : Config) (w : world) :
  dirs (loaded_world config w) = dirs (setup_world config w).
Proof.
  rewrite loaded_world_eq.
  destruct (checkpoint_file w); unfold listed_world;
    by rewrite ?dirs_set_checkpoint_file, !dirs_emit.
Qed.

Transparent setup_world.

Lemma setup_world_dirs (config : Config) (w : world) :
  base_dir_of w ∈ dirs (setup_world config w)
  ∧ repo_base_dir_of w ∈ dirs (setup_world config w)
  ∧ log_dir_of w ∈ dirs (setup_world config w)
  ∧ project_dir_of config w ∈ dirs (setup_world config w).
Proof.
  split; [apply base_dir_exists|].
  unfold setup_world, bind, makedirs, setup_logging, logging, act. cbn.
  destruct (root_handlers w); cbn; set_solver.
Qed.

Opaque setup_world.

Lemma run_dirs (config : Config) (only_clone_repos : bool) (w : world) :
  dirs (setup_world config w)
  ⊆ dirs (clone_and_push_repositories config only_clone_repos w).2.
Proof.
  rewrite run_eq.
  assert (dirs (listed_world config w) = dirs (setup_world config w)) as Hl
    by (unfold listed_world; by rewrite dirs_emit).
  destruct (listing_answer config w) as [r|msg]; [|cbn [snd]; by rewrite Hl].
  destruct (negb (bool_decide (status_code r = 200))); [cbn [snd]; by rewrite Hl|].
  destruct (negb (bool_decide (tfs_source_repo config ∈ _))); [cbn [snd]; by rewrite Hl|].
  destruct (migrated config (checkpoint_file w)) eqn:Hnew.
  { cbn [snd]. by rewrite dirs_emit, loaded_world_dirs. }
  destruct (destination_answer config w) as [r2|msg].
  - case_bool_decide as H200.
    + destruct (block_shape config (config_get_specific_branches config)
                  (tfs_source_repo config) (github_target_repo config)
                  (azure_repo_url_of config) (repo_dir_of config w)
                  only_clone_repos
                  (azure_devops_organization config) (azure_devops_project config)
                  (base_dir_of w) (entry_world config w)
                  (default ∅ (checkpoint_file w))
                  (entry_world_file config w) Hnew (base_dir_at_entry config w))
        as (w' & i & evs_c & evs_p & Hrun & Hev & _).
      unfold block_of. rewrite Hrun. cbn [snd].
      etrans; [|exact (ev_dirs _ _ _ Hev)].
      unfold entry_world, checked_world, requested_world.
      by rewrite !dirs_emit, loaded_world_dirs.
    + cbn [snd]. unfold checked_world, requested_world.
      by rewrite !dirs_emit, loaded_world_dirs.
  - cbn [snd]. unfold requested_world. by rewrite dirs_emit, loaded_world_dirs.
Qed.

(** What any run does to the working directory and the directories: the
    working directory is the base migration directory after a run that got
    into the [try] and is untouched otherwise; commands are invoked only by
    runs that got there; and every run, also one that fails at the listing,
    has created the directory tree of the migration (base, repositories,
    logs, organisation/project) and has removed no directory. *)
Theorem run_directories (config : Config) (only_clone_repos : bool) (w : world) :
  let run := clone_and_push_repositories config only_clone_repos w in
  cwd run.2 = (if reaches_block config w then base_dir_of w else cwd w)
  ∧ (reaches_block config w = false → commands (new_events w run.2) = [])
  ∧ dirs w ⊆ dirs run.2
  ∧ base_dir_of w ∈ dirs run.2
  ∧ repo_base_dir_of w ∈ dirs run.2
  ∧ log_dir_of w ∈ dirs run.2
  ∧ project_dir_of config w ∈ dirs run.2.
Proof.
  cbn zeta.
  pose proof (run_dirs config only_clone_repos w) as Hd.
  destruct (setup_world_dirs config w) as (H1 & H2 & H3 & H4).
  pose proof (ev_dirs _ _ _ (setup_world_evolves config w)) as H0.
  assert (cwd (clone_and_push_repositories config only_clone_repos w).2
          = (if reaches_block config w then base_dir_of w else cwd w)
          ∧ (reaches_block config w = false →
               commands (new_events w
                 (clone_and_push_repositories config only_clone_repos w).2) = [])) as [Hc Hq].
  { destruct (reaches_block config w) eqn:Hreach.
    - destruct (block_run_state config only_clone_repos w Hreach) as (_ & _ & Hcwd & _).
      split; [exact Hcwd|done].
    - destruct (early_run config only_clone_repos w Hreach) as [_ Hev].
      destruct (early_events_quiet config w) as (Hcm & _ & _ & Hcwd & _).
      cbn zeta in Hev. split.
      + by rewrite (ev_cwd _ _ _ Hev).
      + intros _. by rewrite (evolves_new_events _ _ _ Hev). }
  split_and!.
  - exact Hc.
  - exact Hq.
  - etrans; [exact H0|exact Hd].
  - apply Hd, H1.
  - apply Hd, H2.
  - apply Hd, H3.
  - apply Hd, H4.
Qed.

(** ** The branch-list push under any environment *)

Lemma branch_commands_bound (url : string) (l : list (string * (nat * nat))) :
  Forall (λ x, branch_counts_ok x.2) l →
  (length (flat_map (branch_commands url) l) ≤ 6 * length l)%nat
  ∧ Forall (λ c, ∃ b, b ∈ l.*1 ∧ (c = fetch_command b ∨ c = push_command url b))
      (flat_map (branch_commands url) l).
Proof.
  induction 1 as [|[b [i j]] l [Hi Hj] _ [IHl IHf]]; [split; [cbn; lia|constructor]|].
  cbn [flat_map]. split.
  - rewrite length_app. unfold branch_commands at 1.
    rewrite length_app, !length_replicate. cbn in *. lia.
  - apply Forall_app. split.
    + unfold branch_commands. cbn [fst snd]. apply Forall_app. split.
      * apply Forall_replicate. exists b. split; [apply elem_of_cons; by left|by left].
      * apply Forall_replicate. exists b. split; [apply elem_of_cons; by left|by right].
    + eapply Forall_impl; [exact IHf|].
      intros c (b' & Hb' & Hc). exists b'. split; [apply elem_of_cons; by right|done].
Qed.

(** Whatever the environment does, [migrate_specific_branches] invokes at
    most six commands per branch, each of them the fetch or the push of a
    branch of the list; it never changes the working directory and never
    touches the ledger.  With no branch it does nothing and returns. *)
Theorem migrate_specific_branches_bounds (repo_dir url : string)
    (branches : branch_value) (w : world) :
  let run := migrate_specific_branches repo_dir url branches w in
  let evs := new_events w run.2 in
  (length (commands evs) ≤ 6 * length (py_iter branches))%nat
  ∧ Forall (λ c, ∃ b, b ∈ py_iter branches
                      ∧ (c = fetch_command b ∨ c = push_command url b)) (commands evs)
  ∧ chdirs evs = [] ∧ writes evs = []
  ∧ cwd run.2 = cwd w
  ∧ checkpoint_file run.2 = checkpoint_file w
  ∧ (py_iter branches = [] → run = (Val tt, w)).
Proof.
  intros run evs. subst evs run. unfold migrate_specific_branches.
  destruct (migrate_branches_grouped url (py_iter branches) w)
    as (ns & evs & Hev & Hc & Hns & Hlen & _ & _ & Hall).
  rewrite (evolves_new_events _ _ _ Hev), Hc.
  assert (Forall (λ x : string * (nat * nat), branch_counts_ok x.2)
            (zip (py_iter branches) ns)) as Hz.
  { apply Forall_forall. intros [b n] Hin. apply elem_of_zip_r in Hin.
    by apply (proj1 (Forall_forall _ _) Hns). }
  destruct (branch_commands_bound url _ Hz) as [Hb Hf].
  destruct (only_quiet _ _ Hall) as (Hcd & Hw & _).
  split_and!.
  - etrans; [exact Hb|]. rewrite length_zip_with. lia.
  - eapply Forall_impl; [exact Hf|].
    intros c (b & Hb' & Hc'). exists b. split; [|done].
    apply list_elem_of_fmap in Hb' as ([b0 n0] & -> & Hin).
    by apply elem_of_zip_l in Hin.
  - by eapply only_chdirs.
  - by eapply only_writes.
  - rewrite (ev_cwd _ _ _ Hev). by apply last_chdir_quiet.
  - rewrite (ev_file _ _ _ Hev). by apply last_write_quiet.
  - intros ->. reflexivity.
Qed.

(** ** The run in which everything works *)

Lemma subprocess_run_emit (e : event) (w : world) :
  subprocess_run (emit e w) = subprocess_run w.
Proof. reflexivity. Qed.

Lemma dirs_set_dirs (d : gset string) (w : world) : dirs (set_dirs d w) = d.
Proof. reflexivity. Qed.

Lemma dirs_set_cwd (p : string) (w : world) : dirs (set_cwd p w) = dirs w.
Proof. reflexivity. Qed.

Lemma commands_clean_branches (url : string) (bs : list string) :
  commands (flat_map (clean_branch_events url) bs)
  = flat_map (λ b, [fetch_command b; push_command url b]) bs.
Proof. induction bs as [|b bs IH]; [done|]. cbn. by rewrite <- IH. Qed.

Section Clean.
Context (config : Config) (specific_branches : branch_value).
Context (repo_name git_repo azure_repo_url repo_dir : string) (w1 : world).

(** Every command exits with zero, and the clone leaves its directory. *)
Hypothesis Hok : ∀ h c, exits_zero (status (subprocess_run w1 h c)) = true.
Hypothesis Hcreates :
  repo_dir ∉ dirs w1 →
  ∀ h, repo_dir ∈ creates (subprocess_run w1 h
                     (chosen_clone_command specific_branches azure_repo_url repo_dir)).

Lemma clean_clone :
  ∃ w2, clone_step specific_branches repo_name azure_repo_url repo_dir w1 = (Val tt, w2)
        ∧ evolves w1 w2 (clean_clone_events specific_branches repo_name azure_repo_url
                           repo_dir (bool_decide (repo_dir ∈ dirs w1)))
        ∧ repo_dir ∈ dirs w2.
Proof.
  rewrite clone_step_eq. unfold clean_clone_events.
  case_bool_decide as Hex.
  - exists w1. split_and!; [done|apply evolves_refl|done].
  - set (w0 := emit _ w1). set (cmd := chosen_clone_command _ _ _).
    assert (evolves w1 w0 [EvLog INFO (if is_all specific_branches
                             then "Cloning all branches for " +:+ repo_name +:+ "..."
                             else "Cloning default branch for " +:+ repo_name +:+ "...")])
      as Hlog by by apply evolves_emit.
    unfold retry_subprocess. change (Z.to_nat default_retries) with 3%nat.
    change 0 with (Z.of_nat 0). rewrite retry_loop_step.
    pose proof (Hok (trace w0) cmd) as Hz.
    assert (subprocess_run w0 = subprocess_run w1) as Hs by apply subprocess_run_emit.
    rewrite Hs.
    destruct (status (subprocess_run w1 (trace w0) cmd)) as [rc|msg]; [|discriminate Hz].
    cbn [exits_zero] in Hz. rewrite Hz.
    eexists. split_and!; [reflexivity| |].
    + apply (evolves_trans _ w0 _ [_] [_]); [exact Hlog|].
      apply evolves_set_dirs; [by apply evolves_emit|].
      rewrite dirs_emit. apply union_subseteq_l.
    + rewrite dirs_set_dirs. apply elem_of_union. right.
      apply elem_of_list_to_set. by apply Hcreates.
Qed.

Lemma clean_push (w2 : world) :
  repo_dir ∈ dirs w2 →
  subprocess_run w2 = subprocess_run w1 →
  ∃ w3, push_step config specific_branches repo_name git_repo repo_dir w2 = (Val tt, w3)
        ∧ evolves w2 w3
            (clean_push_events specific_branches repo_name
               ("https://github.com/" +:+ github_organization config +:+ "/"
                  +:+ quote git_repo +:+ ".git") repo_dir).
Proof.
  intros Hdir Hs. unfold push_step, clean_push_events.
  unfold bind at 1, chdir at 1. rewrite (bool_decide_eq_true_2 _ Hdir).
  set (wc := set_cwd repo_dir (emit (EvChdir repo_dir) w2)).
  assert (evolves w2 wc [EvChdir repo_dir]) as Hcd by apply evolves_chdir.
  assert (subprocess_run wc = subprocess_run w1) as Hsc by exact Hs.
  set (url := "https://github.com/" +:+ _).
  destruct (is_all specific_branches).
  - unfold bind at 1, logging at 1, act at 1.
    set (wl := emit _ wc).
    assert (evolves wc wl [EvLog INFO ("Pushing all branches and tags for "
                                       +:+ repo_name +:+ "...")]) as Hlog
      by by apply evolves_emit.
    destruct (retry_subprocess_first_try (mirror_push_command url) wl) as (w3 & -> & Hev).
    { assert (subprocess_run wl = subprocess_run w1) as -> by exact Hsc. apply Hok. }
    exists w3. split; [reflexivity|].
    apply (evolves_trans _ wc _ [_] [_; _]); [exact Hcd|].
    apply (evolves_trans _ wl _ [_] [_]); [exact Hlog|exact Hev].
  - unfold bind at 1, logging at 1, act at 1.
    set (wl := emit _ wc).
    assert (evolves wc wl [EvLog INFO ("Pushing selected branches: "
                                       +:+ str_branch_value specific_branches
                                       +:+ " for " +:+ repo_name)]) as Hlog
      by by apply evolves_emit.
    unfold migrate_specific_branches.
    destruct (migrate_branches_clean url (py_iter specific_branches) wl) as [Hr Hev].
    { intros h c. assert (subprocess_run wl = subprocess_run w1) as -> by exact Hsc.
      apply Hok. }
    destruct (migrate_branches url (py_iter specific_branches) wl) as [r w3].
    cbn [fst snd] in Hr, Hev. subst r.
    exists w3. split; [reflexivity|].
    apply (evolves_trans _ wc _ [_] (_ :: _)); [exact Hcd|].
    apply (evolves_trans _ wl _ [_] _); [exact Hlog|exact Hev].
Qed.

Lemma clean_suite (only_clone_repos : bool) :
  ∃ w', try_suite config only_clone_repos specific_branches
          repo_name git_repo azure_repo_url repo_dir w1 = (Val tt, w')
        ∧ evolves w1 w'
            (clean_clone_events specific_branches repo_name azure_repo_url repo_dir
               (bool_decide (repo_dir ∈ dirs w1))
             ++ if only_clone_repos then []
                else clean_push_events specific_branches repo_name
                       ("https://github.com/" +:+ github_organization config +:+ "/"
                          +:+ quote git_repo +:+ ".git") repo_dir).
Proof.
  destruct clean_clone as (w2 & Hrun & Hev & Hdir).
  unfold try_suite, bind. rewrite Hrun.
  destruct only_clone_repos; cbn [negb].
  - exists w2. by rewrite app_nil_r.
  - destruct (clean_push w2 Hdir (ev_subprocess _ _ _ Hev)) as (w3 & -> & Hev').
    exists w3. split; [reflexivity|]. by eapply evolves_trans.
Qed.
End Clean.

Lemma writes_clean_branches (url : string) (bs : list string) :
  writes (flat_map (clean_branch_events url) bs) = [].
Proof. induction bs as [|b bs IH]; [done|]. exact IH. Qed.

Lemma chdirs_clean_branches (url : string) (bs : list string) :
  chdirs (flat_map (clean_branch_events url) bs) = [].
Proof. induction bs as [|b bs IH]; [done|]. exact IH. Qed.

Lemma clean_events_observed (sb : branch_value) (repo_name url gh_url dir : string)
    (present : bool) :
  commands (clean_clone_events sb repo_name url dir present)
  = (if present then [] else [chosen_clone_command sb url dir])
  ∧ writes (clean_clone_events sb repo_name url dir present) = []
  ∧ chdirs (clean_clone_events sb repo_name url dir present) = []
  ∧ commands (clean_push_events sb repo_name gh_url dir) = clean_push_commands sb gh_url
  ∧ writes (clean_push_events sb repo_name gh_url dir) = []
  ∧ chdirs (clean_push_events sb repo_name gh_url dir) = [dir].
Proof.
  unfold clean_clone_events, clean_push_events, clean_push_commands.
  destruct present, (is_all sb); split_and!; try done.
  all: cbn; first [apply commands_clean_branches | apply writes_clean_branches
                  | by rewrite chdirs_clean_branches].
Qed.

(** The run in which everything works.  When the run gets into the [try],
    every command exits with zero at its first invocation and the clone
    leaves its directory, the run returns normally without logging an
    error; its commands are the clone (unless the clone directory was
    there) followed, unless the run is clone-only, by the mirror push or,
    for a branch list, the fetch and the push of each branch in turn; it
    changes directory to the clone for the push and to the base directory
    at the end; and it writes the ledger with the repository recorded
    exactly once, after all commands. *)
Theorem clean_run (config : Config) (only_clone_repos : bool) (w : world) :
  reaches_block config w = true →
  (∀ h c, exits_zero (status (subprocess_run w h c)) = true) →
  (repo_dir_of config w ∉ dirs (entry_world config w) →
   ∀ h, repo_dir_of config w
        ∈ creates (subprocess_run w h
                     (chosen_clone_command (config_get_specific_branches config)
                        (azure_repo_url_of config) (repo_dir_of config w)))) →
  let run := clone_and_push_repositories config only_clone_repos w in
  let evs := new_events w run.2 in
  let sb := config_get_specific_branches config in
  let present := bool_decide (repo_dir_of config w ∈ dirs (entry_world config w)) in
  run.1 = Val tt
  ∧ evs = entry_events config w
            ++ clean_clone_events sb (tfs_source_repo config) (azure_repo_url_of config)
                 (repo_dir_of config w) present
            ++ (if only_clone_repos then []
                else clean_push_events sb (tfs_source_repo config)
                       (github_repo_url_of config) (repo_dir_of config w))
            ++ final_events config w
  ∧ commands evs
    = (if present then []
       else [chosen_clone_command sb (azure_repo_url_of config) (repo_dir_of config w)])
      ++ (if only_clone_repos then [] else clean_push_commands sb (github_repo_url_of config))
  ∧ chdirs evs
    = (if only_clone_repos then [] else [repo_dir_of config w]) ++ [base_dir_of w]
  ∧ writes evs = writes (load_events w) ++ [recorded config w].
Proof.
  intros Hreach Hok Hcreates run evs sb present.
  destruct (block_run config only_clone_repos w Hreach)
    as (w' & i & evs_c & evs_p & Hrun & Hev & Hsuite & _).
  cbn zeta in Hev, Hsuite. unfold suite_of in Hev, Hsuite.
  pose proof (ev_subprocess _ _ _ (entry_world_evolves config w)) as Hsub.
  destruct (clean_suite config sb (tfs_source_repo config) (github_target_repo config)
              (azure_repo_url_of config) (repo_dir_of config w) (entry_world config w))
    with (only_clone_repos := only_clone_repos) as (ws & Hs & Hevs).
  { intros h c. rewrite Hsub. apply Hok. }
  { intros Habs h. rewrite Hsub. by apply Hcreates. }
  fold present in Hevs. fold (github_repo_url_of config) in Hevs.
  subst sb. rewrite Hs in Hev, Hsuite. cbn [fst snd] in Hev, Hsuite.
  change (handler_events config (Val tt)) with (@nil event) in Hev.
  rewrite app_nil_l in Hev.
  assert (evs_c ++ evs_p
          = clean_clone_events (config_get_specific_branches config)
              (tfs_source_repo config) (azure_repo_url_of config)
              (repo_dir_of config w) present
            ++ (if only_clone_repos then []
                else clean_push_events (config_get_specific_branches config)
                       (tfs_source_repo config) (github_repo_url_of config)
                       (repo_dir_of config w))) as Heq.
  { by rewrite <- (evolves_new_events _ _ _ Hsuite), <- (evolves_new_events _ _ _ Hevs). }
  rewrite (app_assoc evs_c), Heq, <- app_assoc in Hev.
  destruct (clean_events_observed (config_get_specific_branches config)
              (tfs_source_repo config) (azure_repo_url_of config)
              (github_repo_url_of config) (repo_dir_of config w) present)
    as (Hc1 & Hw1 & Hd1 & Hc2 & Hw2 & Hd2).
  destruct (entry_events_quiet config w) as (Hc0 & Hd0 & Hw0).
  assert (commands (final_events config w) = []
          ∧ chdirs (final_events config w) = [base_dir_of w]
          ∧ writes (final_events config w) = [recorded config w]) as (Hc3 & Hd3 & Hw3)
    by done.
  subst evs run. rewrite Hrun. cbn [fst snd]. rewrite (evolves_new_events _ _ _ Hev).
  clearbody present.
  rewrite !commands_app, !chdirs_app, !writes_app.
  rewrite Hc0, Hd0, Hw0, Hc1, Hd1, Hw1, Hc3, Hd3, Hw3, !app_nil_l.
  split_and!.
  - reflexivity.
  - reflexivity.
  - destruct only_clone_repos.
    + reflexivity.
    + by rewrite Hc2, app_nil_r.
  - destruct only_clone_repos.
    + reflexivity.
    + by rewrite Hd2.
  - destruct only_clone_repos.
    + reflexivity.
    + by rewrite Hw2.
Qed.

(** Selector ["all"], GitHub has the repository, no clone yet: one mirror
    clone, one mirror push, one ledger write after them. *)
Lemma clean_run_witness :
  let w := sample_world (Some ∅) 200 (run_exit 0) in
  let evs := new_events w (clone_and_push_repositories sample_config false w).2 in
  commands evs
  = [["git"; "clone"; "--mirror"; "https://tfs.example.com/contoso/payments/_git/billing";
      "/work/tfs_repo_migration/tfs_git_repo/contoso/payments/billing"];
     ["git"; "push"; "--mirror"; "https://github.com/contoso-gh/billing-gh.git"]]%string
  ∧ length (writes evs) = 1%nat.
Proof.
  intros w evs.
  assert (reaches_block sample_config w = true) as Hreach by (vm_compute; reflexivity).
  assert (∀ h c, exits_zero (status (subprocess_run w h c)) = true) as Hok
    by (intros h c; reflexivity).
  assert (repo_dir_of sample_config w ∉ dirs (entry_world sample_config w)) as Habsent.
  { apply (bool_decide_eq_false_1 _). vm_compute. reflexivity. }
  assert (repo_dir_of sample_config w ∉ dirs (entry_world sample_config w) →
          ∀ h, repo_dir_of sample_config w
               ∈ creates (subprocess_run w h
                            (chosen_clone_command (config_get_specific_branches sample_config)
                               (azure_repo_url_of sample_config)
                               (repo_dir_of sample_config w)))) as Hcr.
  { intros _ h. vm_compute. constructor. }
  pose proof (clean_run sample_config false w Hreach Hok Hcr) as H.
  cbn zeta in H. destruct H as (_ & _ & Hc & _ & Hw).
  rewrite (bool_decide_eq_false_2 _ Habsent) in Hc.
  subst evs. rewrite Hc, Hw. split; reflexivity.
Defined.

(** ** Logging and directories *)




